(** * VetCare license server: a shallow embedding of [server.js]

    The server keeps one plain object [licenses], used as a map from the
    SHA-256 digest of a license key to the license record, and rewrites
    the file [licenses.json] after every mutation.  Each Express handler
    is embedded as a function from the server state and the request to
    the next state and the HTTP response; the routes that only list or
    look up records without any decision are left out.

    Conventions of the embedding:
    - a request field that may be missing is an [option]; [None] is the
      JavaScript [undefined]; present fields have the type the data model
      gives them (strings, whole numbers of days, booleans);
    - a record field that the code may leave out is an [option] too,
      [None] meaning that the record has no such property;
    - counters and day counts are integers, as they are in the range in
      which JavaScript numbers are exact;
    - an ISO-8601 timestamp string is identified with the time value
      (milliseconds since the epoch) it denotes; [Date] keeps the range
      limit of JavaScript dates, outside of which [toISOString] throws;
    - [licenses] is a [gmap] over the object's own properties: a route
      that takes [:hash] from the URL is embedded for the hashes that
      name no property every object inherits ([__proto__], [constructor],
      [toString] and the like), where the code's [licenses[hash]] finds
      the inherited value instead of [undefined];
    - [saveLicenses] always succeeds in writing (the code logs a failed
      write and goes on). *)

From Stdlib Require Import ZArith List Lia QArith Qround.
From stdpp Require Import base option list strings pretty gmap fin_maps.

Local Open Scope string_scope.
Local Open Scope list_scope.
Local Open Scope Z_scope.

(** ** Exceptions *)

Inductive Result (A : Type) : Type :=
| Ok (a : A)
| Throw (message : string).
Arguments Ok {A} a.
Arguments Throw {A} message.

#[global] Instance Result_ret : MRet Result := fun A a => Ok a.

#[global] Instance Result_bind : MBind Result := fun A B k r =>
  match r with
  | Ok a => k a
  | Throw m => Throw m
  end.

(** ** Dates *)

(** [24 * 60 * 60 * 1000] *)
Definition MS_PER_DAY : Z := 24 * 60 * 60 * 1000.

(** Largest time value a JavaScript [Date] can hold (100,000,000 days). *)
Definition MAX_TIME : Z := 8640000000000000.

(** A [Date] object; [None] is the Invalid Date. *)
Definition Date : Type := option Z.

(** [new Date(t)] for a number [t]. *)
Definition new_Date (t : Z) : Date :=
  if bool_decide (- MAX_TIME <= t <= MAX_TIME) then Some t else None.

(** [d.toISOString()]: a RangeError on the Invalid Date. *)
Definition toISOString (d : Date) : Result Z :=
  match d with
  | Some t => Ok t
  | None => Throw "Invalid time value"
  end.

(** ** Truthiness of request fields *)

(** [!!s] for a field that is a string or missing. *)
Definition truthy (s : option string) : bool :=
  match s with
  | Some s => negb (String.eqb s "")
  | None => false
  end.

(** [!!n] for a field that is a number or missing. *)
Definition truthy_num (n : option Z) : bool :=
  match n with
  | Some n => negb (n =? 0)
  | None => false
  end.

(** ** Data model *)

Module User.
Record t : Type := mk {
  username : option string;
  role : string;
  addedAt : Z;
  isActive : bool
}.
Definition set_isActive (b : bool) (u : t) : t :=
  mk (username u) (role u) (addedAt u) b.
End User.

Module Login.
Record t : Type := mk {
  username : option string;
  timestamp : Z;
  success : bool
}.
End Login.

(** A license record.  [deviceFingerprint] is always [null] ([None]);
    [name], [boundDeviceId], [users] and [loginHistory] are properties a
    record gets later, if ever. *)
Record License : Type := mkLicense {
  key : string;
  customerId : string;
  type : string;
  created : Z;
  expirationDate : Z;
  validityDays : Z;
  deviceFingerprint : option string;
  usageCount : Z;
  isActive : bool;
  name : option string;
  boundDeviceId : option string;
  users : option (list User.t);
  loginHistory : option (list Login.t)
}.

Definition set_usageCount (n : Z) (l : License) : License :=
  mkLicense (key l) (customerId l) (type l) (created l) (expirationDate l)
    (validityDays l) (deviceFingerprint l) n (isActive l) (name l)
    (boundDeviceId l) (users l) (loginHistory l).

Definition set_isActive (b : bool) (l : License) : License :=
  mkLicense (key l) (customerId l) (type l) (created l) (expirationDate l)
    (validityDays l) (deviceFingerprint l) (usageCount l) b (name l)
    (boundDeviceId l) (users l) (loginHistory l).

Definition set_boundDeviceId (d : option string) (l : License) : License :=
  mkLicense (key l) (customerId l) (type l) (created l) (expirationDate l)
    (validityDays l) (deviceFingerprint l) (usageCount l) (isActive l) (name l)
    d (users l) (loginHistory l).

Definition set_users (us : option (list User.t)) (l : License) : License :=
  mkLicense (key l) (customerId l) (type l) (created l) (expirationDate l)
    (validityDays l) (deviceFingerprint l) (usageCount l) (isActive l) (name l)
    (boundDeviceId l) us (loginHistory l).

Definition set_loginHistory (h : option (list Login.t)) (l : License) : License :=
  mkLicense (key l) (customerId l) (type l) (created l) (expirationDate l)
    (validityDays l) (deviceFingerprint l) (usageCount l) (isActive l) (name l)
    (boundDeviceId l) (users l) h.

Definition set_expirationDate (e : Z) (l : License) : License :=
  mkLicense (key l) (customerId l) (type l) (created l) e
    (validityDays l) (deviceFingerprint l) (usageCount l) (isActive l) (name l)
    (boundDeviceId l) (users l) (loginHistory l).

Definition set_validityDays (v : Z) (l : License) : License :=
  mkLicense (key l) (customerId l) (type l) (created l) (expirationDate l)
    v (deviceFingerprint l) (usageCount l) (isActive l) (name l)
    (boundDeviceId l) (users l) (loginHistory l).

(** ** Server state *)

(** The module-level [licenses] object and the content of [LICENSES_FILE]
    (the entries last written, read back as a map). *)
Record Server : Type := mkServer {
  licenses : gmap string License;
  LICENSES_FILE : gmap string License
}.

(** [saveLicenses(licenses)]: overwrite the file with all entries. *)
Definition saveLicenses (s : Server) : Server :=
  mkServer (licenses s) (licenses s).

(** [licenses[hash] = license], also the effect of mutating the record
    that [licenses[hash]] refers to. *)
Definition store (hash : string) (l : License) (s : Server) : Server :=
  mkServer (<[hash := l]> (licenses s)) (LICENSES_FILE s).

(** [let licenses = loadLicenses()] at start-up, from a file content. *)
Definition loadLicenses (file : gmap string License) : Server :=
  mkServer file file.

(** ** Responses *)

Record Stats : Type := mkStats {
  total : Z;
  active : Z;
  inactive : Z;
  expired : Z;
  expiringIn30Days : Z;
  timeToResolve : string;
  available : option Z
}.

Inductive Body : Type :=
| Invalid (reason : string)
| Error (error : string)
| ValidKey (customerId : string) (expirationDate : Z) (type : string)
| ValidDevice (licenseName : string) (expirationDate : Z)
    (boundDeviceId : option string) (remainingDays : Z)
| ValidUser (customerId : string) (expirationDate : Z) (type : string)
    (username : option string) (role : string)
| LicenseBody (message : string) (hash : string) (license : License)
| UserBody (message : string) (user : User.t)
| UsersBody (licenseKey customerId : string) (users : list User.t)
| Success (message : string)
| StatsBody (stats : Stats).

Record Response : Type := mkResponse {
  status : Z;
  body : Body
}.

(** [res.json(b)] and [res.status(n).json(b)] *)
Definition json (b : Body) : Response := mkResponse 200 b.
Definition status_json (n : Z) (b : Body) : Response := mkResponse n b.

(** The [try { ... } catch (err) { res.status(500).json({ error: err.message }) }]
    around a handler body whose exceptions are all thrown before its
    first mutation. *)
Definition try_catch (s : Server) (r : Result (Server * Response))
  : Server * Response :=
  match r with
  | Ok x => x
  | Throw m => (s, status_json 500 (Error m))
  end.

(** [{valid: true}] responses *)
Definition is_valid (r : Response) : bool :=
  match body r with
  | ValidKey _ _ _ | ValidDevice _ _ _ _ | ValidUser _ _ _ _ _ => true
  | _ => false
  end.

(** ** Array helpers *)

(** [xs.find(p)] is [List.find p xs]; [xs.slice(-n)] keeps the last [n]
    elements. *)
Definition slice_last {A} (n : nat) (xs : list A) : list A :=
  drop (length xs - n) xs.

(** The effect of mutating the object returned by [xs.find(p)]. *)
Fixpoint update_first {A} (p : A -> bool) (f : A -> A) (xs : list A) : list A :=
  match xs with
  | [] => []
  | x :: xs => if p x then f x :: xs else x :: update_first p f xs
  end.

(** [xs.splice(xs.findIndex(p), 1)] when the index is not [-1]. *)
Fixpoint remove_first {A} (p : A -> bool) (xs : list A) : list A :=
  match xs with
  | [] => []
  | x :: xs => if p x then xs else x :: remove_first p xs
  end.

(** [Object.keys(o)] and [Object.values(o)].  JavaScript enumerates in
    insertion order; the handlers below only count, so any order does. *)
Definition Object_keys {V} (o : gmap string V) : list string :=
  (map_to_list o).*1.
Definition Object_values {V} (o : gmap string V) : list V :=
  (map_to_list o).*2.

(** ** The handlers *)

(** [(expirationDate - now) / (1000 * 60 * 60 * 24)], a fraction of days *)
Definition daysUntilExpiry (expirationDate now : Z) : Q :=
  Qdiv (inject_Z (expirationDate - now)) (inject_Z (1000 * 60 * 60 * 24)).

(** The [forEach] body of GET /api/stats. *)
Definition stats_license (now : Z) (stats : Stats) (license : License) : Stats :=
  let d := daysUntilExpiry (expirationDate license) now in
  let stats :=
    if negb (Qle_bool (inject_Z 0) d) then
      mkStats (total stats) (active stats) (inactive stats)
        (expired stats + 1) (expiringIn30Days stats)
        (timeToResolve stats) (available stats)
    else if Qle_bool d (inject_Z 30) then
      mkStats (total stats) (active stats) (inactive stats)
        (expired stats) (expiringIn30Days stats + 1)
        (timeToResolve stats) (available stats)
    else stats in
  if isActive license then
    mkStats (total stats) (active stats + 1) (inactive stats)
      (expired stats) (expiringIn30Days stats)
      (timeToResolve stats) (available stats)
  else
    mkStats (total stats) (active stats) (inactive stats + 1)
      (expired stats) (expiringIn30Days stats)
      (timeToResolve stats) (available stats).

(** GET /api/stats *)
Definition api_stats (now : Z) (s : Server) : Server * Response :=
  let stats :=
    mkStats (Z.of_nat (length (Object_keys (licenses s)))) 0 0 0 0 "0h" None in
  let stats := fold_left (stats_license now) (Object_values (licenses s)) stats in
  let stats :=
    mkStats (total stats) (active stats) (inactive stats) (expired stats)
      (expiringIn30Days stats) (timeToResolve stats)
      (Some (total stats - active stats)) in
  (s, json (StatsBody stats)).

(** [u => u.username === username] *)
Definition username_is (username : option string) (u : User.t) : bool :=
  bool_decide (User.username u = username).

(** POST /api/licenses/:hash/users *)
Definition api_licenses_users_add (now : Z) (hash : string)
    (username role : option string) (s : Server) : Server * Response :=
  let role := default "user" role in
  match licenses s !! hash with
  | None => (s, status_json 404 (Error "License not found"))
  | Some license =>
    let license :=
      match users license with
      | None => set_users (Some []) license
      | Some _ => license
      end in
    let s := store hash license s in
    let us := default [] (users license) in
    match find (username_is username) us with
    | Some _ =>
      (s, status_json 400 (Error "User already exists in this license"))
    | None =>
      let user := User.mk username role now true in
      let license := set_users (Some (us ++ [user])) license in
      let s := saveLicenses (store hash license s) in
      (s, status_json 201 (UserBody "User added to license" user))
    end
  end.

(** GET /api/licenses/:hash/users *)
Definition api_licenses_users (hash : string) (s : Server) : Server * Response :=
  match licenses s !! hash with
  | None => (s, status_json 404 (Error "License not found"))
  | Some license =>
    (s, json (UsersBody (key license) (customerId license)
                (default [] (users license))))
  end.

(** PUT /api/licenses/:hash/users/:username *)
Definition api_licenses_users_put (hash username : string) (isActive : bool)
    (s : Server) : Server * Response :=
  match licenses s !! hash with
  | None => (s, status_json 404 (Error "License not found"))
  | Some license =>
    match users license with
    | None => (s, status_json 404 (Error "Users not found"))
    | Some us =>
      match find (username_is (Some username)) us with
      | None => (s, status_json 404 (Error "User not found in license"))
      | Some user =>
        let user := User.set_isActive isActive user in
        let us :=
          update_first (username_is (Some username))
            (User.set_isActive isActive) us in
        let s := saveLicenses (store hash (set_users (Some us) license) s) in
        (s, json (UserBody
                    (if isActive then "User activated" else "User deactivated")
                    user))
      end
    end
  end.

(** DELETE /api/licenses/:hash/users/:username *)
Definition api_licenses_users_delete (hash username : string) (s : Server)
    : Server * Response :=
  match licenses s !! hash with
  | None => (s, status_json 404 (Error "License not found"))
  | Some license =>
    match users license with
    | None => (s, status_json 404 (Error "Users not found"))
    | Some us =>
      match find (username_is (Some username)) us with
      | None => (s, status_json 404 (Error "User not found in license"))
      | Some _ =>
        let us := remove_first (username_is (Some username)) us in
        let s := saveLicenses (store hash (set_users (Some us) license) s) in
        (s, json (Success "User removed from license"))
      end
    end
  end.

(** PUT /api/licenses/:hash/deactivate *)
Definition api_licenses_deactivate (hash : string) (s : Server)
    : Server * Response :=
  match licenses s !! hash with
  | None => (s, status_json 404 (Error "License not found"))
  | Some license =>
    let license := set_isActive false license in
    let s := saveLicenses (store hash license s) in
    (s, json (LicenseBody "License deactivated" hash license))
  end.

(** PUT /api/licenses/:hash/activate *)
Definition api_licenses_activate (hash : string) (s : Server)
    : Server * Response :=
  match licenses s !! hash with
  | None => (s, status_json 404 (Error "License not found"))
  | Some license =>
    let license := set_isActive true license in
    let s := saveLicenses (store hash license s) in
    (s, json (LicenseBody "License activated" hash license))
  end.

(** PUT /api/licenses/:hash/extend.  The stored [expirationDate] was
    written by [toISOString], so parsing it gives its time value back. *)
Definition api_licenses_extend (hash : string) (daysToAdd : option Z)
    (s : Server) : Server * Response :=
  try_catch s (
    if negb (truthy (Some hash)) || negb (truthy_num daysToAdd)
       || (default 0 daysToAdd <=? 0) then
      Ok (s, status_json 400
               (Error "License hash and positive daysToAdd are required"))
    else
      let daysToAdd := default 0 daysToAdd in
      match licenses s !! hash with
      | None => Ok (s, status_json 404 (Error "License not found"))
      | Some license =>
        let currentExpiry := expirationDate license in
        let newExpiry :=
          new_Date (currentExpiry + daysToAdd * 24 * 60 * 60 * 1000) in
        iso ← toISOString newExpiry;
        let license := set_expirationDate iso license in
        let license :=
          set_validityDays (validityDays license + daysToAdd) license in
        let s := saveLicenses (store hash license s) in
        Ok (s, json (LicenseBody
                       ("License extended by " +:+ pretty daysToAdd +:+ " days")
                       hash license))
      end).

(** DELETE /api/licenses/:hash *)
Definition api_licenses_delete (hash : string) (s : Server)
    : Server * Response :=
  match licenses s !! hash with
  | None => (s, status_json 404 (Error "License not found"))
  | Some _ =>
    let s := saveLicenses (mkServer (delete hash (licenses s)) (LICENSES_FILE s)) in
    (s, json (Success "License deleted"))
  end.

Section Handlers.

(** [hashLicense(key)], the hex SHA-256 digest of the key. *)
Variable hashLicense : string -> string.

(** [generateLicenseKey(customerId)], given the 16 upper-case hex digits
    drawn from [crypto.randomBytes(8)]. *)
Definition generateLicenseKey (randomSuffix customerId : string) : string :=
  "VET-" +:+ customerId +:+ "-" +:+ randomSuffix.

(** POST /api/licenses.  [now] is the time value of [new Date()]. *)
Definition api_licenses_create (now : Z) (randomSuffix : string)
    (customerId type : option string) (validityDays : option Z)
    (s : Server) : Server * Response :=
  let type := default "production" type in
  let validityDays := default 365 validityDays in
  try_catch s (
    if negb (truthy customerId) then
      Ok (s, status_json 400 (Error "Customer ID is required"))
    else
      let customerId := default "" customerId in
      let licenseKey := generateLicenseKey randomSuffix customerId in
      let hash := hashLicense licenseKey in
      let expirationDate :=
        new_Date (now + validityDays * 24 * 60 * 60 * 1000) in
      iso ← toISOString expirationDate;
      let license :=
        mkLicense licenseKey customerId type now iso validityDays
          None 0 true None None None None in
      let s := saveLicenses (store hash license s) in
      Ok (s, status_json 201
               (LicenseBody "License created successfully" hash license))).

(** POST /api/licenses/validate *)
Definition api_licenses_validate (now : Z) (licenseKey : option string)
    (s : Server) : Server * Response :=
  if negb (truthy licenseKey) then
    (s, status_json 400 (Invalid "License key not provided"))
  else
    let hash := hashLicense (default "" licenseKey) in
    match licenses s !! hash with
    | None => (s, json (Invalid "License not found"))
    | Some license =>
      if expirationDate license <? now then
        (s, json (Invalid "License expired"))
      else if negb (isActive license) then
        (s, json (Invalid "License is inactive"))
      else
        let license := set_usageCount (usageCount license + 1) license in
        let s := saveLicenses (store hash license s) in
        (s, json (ValidKey (customerId license) (expirationDate license)
                    (type license)))
    end.

(** POST /api/verify-license *)
Definition api_verify_license (now : Z) (licenseKey deviceId : option string)
    (s : Server) : Server * Response :=
  if negb (truthy licenseKey) || negb (truthy deviceId) then
    (s, status_json 400 (Invalid "License key and device ID are required"))
  else
    let hash := hashLicense (default "" licenseKey) in
    match licenses s !! hash with
    | None => (s, json (Invalid "License not found"))
    | Some license =>
      if expirationDate license <? now then
        (s, json (Invalid "License expired"))
      else if negb (isActive license) then
        (s, json (Invalid "License is inactive"))
      else
        let valid (license : License) :=
          let s := saveLicenses (store hash license s) in
          (s, json (ValidDevice
                      (if truthy (name license)
                       then default "" (name license)
                       else "VetCare License")
                      (expirationDate license)
                      (boundDeviceId license)
                      (Qceiling
                         (daysUntilExpiry (expirationDate license) now)))) in
        if negb (truthy (boundDeviceId license)) then
          valid (set_boundDeviceId deviceId license)
        else if negb (bool_decide (boundDeviceId license = deviceId)) then
          (s, json (Invalid "License is bound to a different device"))
        else
          valid license
    end.

(** POST /api/verify-user-license.  Both clock readings of the handler
    are taken at [now]. *)
Definition api_verify_user_license (now : Z)
    (username licenseKey : option string) (s : Server) : Server * Response :=
  if negb (truthy username) || negb (truthy licenseKey) then
    (s, status_json 400 (Invalid "Username and license key are required"))
  else
    let hash := hashLicense (default "" licenseKey) in
    match licenses s !! hash with
    | None => (s, json (Invalid "License not found"))
    | Some license =>
      if expirationDate license <? now then
        (s, json (Invalid "License expired"))
      else if negb (isActive license) then
        (s, json (Invalid "License is inactive"))
      else
        match users license with
        | None | Some [] =>
          (s, json (Invalid "No users assigned to this license"))
        | Some us =>
          match find (username_is username) us with
          | None => (s, json (Invalid "User not assigned to this license"))
          | Some user =>
            if negb (User.isActive user) then
              (s, json (Invalid "User is deactivated"))
            else
              let history :=
                default [] (loginHistory license)
                  ++ [Login.mk username now true] in
              let history :=
                if (100 <? Z.of_nat (length history))
                then slice_last 100 history else history in
              let license := set_loginHistory (Some history) license in
              let license :=
                set_usageCount (usageCount license + 1) license in
              let s := saveLicenses (store hash license s) in
              (s, json (ValidUser (customerId license)
                          (expirationDate license) (type license)
                          (User.username user) (User.role user)))
          end
        end
    end.

(** ** The server as a state machine *)

Inductive Request : Type :=
| GET_stats
| POST_licenses (randomSuffix : string) (customerId type : option string)
    (validityDays : option Z)
| POST_licenses_validate (licenseKey : option string)
| POST_licenses_users (hash : string) (username role : option string)
| GET_licenses_users (hash : string)
| PUT_licenses_users (hash username : string) (isActive : bool)
| DELETE_licenses_users (hash username : string)
| POST_verify_license (licenseKey deviceId : option string)
| POST_verify_user_license (username licenseKey : option string)
| PUT_licenses_deactivate (hash : string)
| PUT_licenses_activate (hash : string)
| PUT_licenses_extend (hash : string) (daysToAdd : option Z)
| DELETE_licenses (hash : string).

(** One request, received at time [now]. *)
Definition handle (now : Z) (req : Request) (s : Server) : Server * Response :=
  match req with
  | GET_stats => api_stats now s
  | POST_licenses r c t v => api_licenses_create now r c t v s
  | POST_licenses_validate k => api_licenses_validate now k s
  | POST_licenses_users h u r => api_licenses_users_add now h u r s
  | GET_licenses_users h => api_licenses_users h s
  | PUT_licenses_users h u a => api_licenses_users_put h u a s
  | DELETE_licenses_users h u => api_licenses_users_delete h u s
  | POST_verify_license k d => api_verify_license now k d s
  | POST_verify_user_license u k => api_verify_user_license now u k s
  | PUT_licenses_deactivate h => api_licenses_deactivate h s
  | PUT_licenses_activate h => api_licenses_activate h s
  | PUT_licenses_extend h d => api_licenses_extend h d s
  | DELETE_licenses h => api_licenses_delete h s
  end.

(** The requests of a trace, served one after the other. *)
Fixpoint serve (trace : list (Z * Request)) (s : Server) : Server :=
  match trace with
  | [] => s
  | (now, req) :: trace => serve trace (handle now req s).1
  end.

(** The states the server can be in when it starts without a file. *)
Definition reachable (s : Server) : Prop :=
  exists trace, serve trace (loadLicenses ∅) = s.

End Handlers.


(** ** Login history *)

(** [license.loginHistory], read as the empty array when the field is
    missing. *)
Definition history (l : License) : list Login.t :=
  default [] (loginHistory l).

(** No license holds more than 100 login records. *)
Definition history_bounded (s : Server) : Prop :=
  map_Forall (fun _ l => (length (history l) <= 100)%nat) (licenses s).

(** ** Counting *)

(** How many records of [ls] satisfy [p]. *)
Definition count (p : License -> bool) (ls : list License) : Z :=
  Z.of_nat (length (List.filter p ls)).

(** The expiration date is before [now]. *)
Definition is_expired (now : Z) (l : License) : bool :=
  expirationDate l <? now.

(** The expiration date is not before [now] and at most 30 days after. *)
Definition expires_within_30_days (now : Z) (l : License) : bool :=
  (now <=? expirationDate l) && (expirationDate l <=? now + 30 * MS_PER_DAY).
(** ** Example data *)

(** A stand-in digest for the closed examples; none depends on how the
    digest is computed. *)
Definition example_digest (key : string) : string := "sha256:" +:+ key.

(** The key, digest and record of the license issued to customer [c1] at
    time [1000] for 30 days with random suffix [00AA11BB22CC33DD]. *)
Definition example_key : string := "VET-c1-00AA11BB22CC33DD".
Definition example_hash : string := example_digest example_key.
Definition example_server : Server :=
  serve example_digest
    [(1000, POST_licenses "00AA11BB22CC33DD" (Some "c1") None (Some 30))]
    (loadLicenses ∅).
Definition example_license : License :=
  mkLicense example_key "c1" "production" 1000 2592001000 30
    None 0 true None None None None.


(** [n] logins of user [ahmed], one per millisecond from time [2000]. *)
Definition example_logins (n : nat) : list (Z * Request) :=
  map (fun i => (2000 + Z.of_nat i,
                 POST_verify_user_license (Some "ahmed") (Some example_key)))
      (seq 0 n).

(** The example license is issued, [ahmed] is added, and he logs in 105
    times. *)
Definition example_trace : list (Z * Request) :=
  [(1000, POST_licenses "00AA11BB22CC33DD" (Some "c1") None (Some 30));
   (1500, POST_licenses_users example_hash (Some "ahmed") (Some "doctor"))]
  ++ example_logins 105.

(** The example server after [ahmed] has been added as a doctor. *)
Definition example_user : User.t := User.mk (Some "ahmed") "doctor" 1500 true.
Definition example_license_ahmed : License :=
  set_users (Some [example_user]) example_license.
Definition example_server_ahmed : Server :=
  (api_licenses_users_add 1500 example_hash (Some "ahmed") (Some "doctor")
     example_server).1.

(** ** The licenses file *)

Module File.

(** What [LICENSES_FILE] holds: nothing, text that [JSON.parse] or the
    [forEach] over it rejects, or the array of [[hash, license]]
    pairs. *)
Inductive content : Type :=
| Missing
| Unreadable
| Entries (entries : list (string * License)).

(** The [forEach] of [loadLicenses]: [licenses[hash] = license] for each
    pair in turn. *)
Definition fromEntries (entries : list (string * License))
    : gmap string License :=
  fold_left (fun licenses entry => <[entry.1 := entry.2]> licenses)
    entries ∅.

(** [loadLicenses()]: the object built from the file, [{}] when there
    is no file or when reading it throws. *)
Definition loadLicenses (file : content) : gmap string License :=
  match file with
  | Entries entries => fromEntries entries
  | Missing | Unreadable => ∅
  end.

(** [saveLicenses(licenses)]: the array of [Object.entries(licenses)]. *)
Definition saveLicenses (licenses : gmap string License) : content :=
  Entries (map_to_list licenses).

End File.

(** ** The routes that only read *)

Inductive Listing : Type :=
| NotFound (error : string)
| Record (hash : string) (license : License).

(** GET /api/licenses/:hash *)
Definition api_licenses_hash (hash : string) (s : Server) : Z * Listing :=
  match licenses s !! hash with
  | None => (404, NotFound "License not found")
  | Some license => (200, Record hash license)
  end.

(** ** Invariants of the server state *)

(** [license.users], read as the empty array when the field is missing. *)
Definition users_of (l : License) : list User.t := default [] (users l).

(** No two users of a license share a username. *)
Definition usernames_unique (s : Server) : Prop :=
  map_Forall (fun _ l => NoDup (User.username <$> users_of l)) (licenses s).

(** Every login record is a success of a named user, and a license has
    been used at least as often as it has login records. *)
Definition history_sound (s : Server) : Prop :=
  map_Forall
    (fun _ l =>
       Forall (fun e => Login.success e = true
                        /\ truthy (Login.username e) = true) (history l)
       /\ Z.of_nat (length (history l)) <= usageCount l)
    (licenses s).

(** ** The identity of a license *)

(** [l'] is [l] later on: same key, customer, type and creation time, no
    fewer uses, and the same device if [l] was bound to one. *)
Definition same_license (l l' : License) : Prop :=
  key l' = key l /\ customerId l' = customerId l /\ type l' = type l
  /\ created l' = created l
  /\ usageCount l <= usageCount l'
  /\ (truthy (boundDeviceId l) = true -> boundDeviceId l' = boundDeviceId l).

Section Replacing.

Variable hashLicense : string -> string.

(** The requests that can take the record under [hash] away: deleting
    it, and issuing a license whose key has the same digest. *)
Definition replaces (hash : string) (req : Request) : Prop :=
  match req with
  | DELETE_licenses h => h = hash
  | POST_licenses randomSuffix customerId _ _ =>
    hashLicense (generateLicenseKey randomSuffix (default "" customerId))
    = hash
  | _ => False
  end.

End Replacing.

(** ** Basic facts *)

Lemma truthy_Some (k : string) : truthy (Some k) = true <-> k <> "".
Proof.
  unfold truthy. destruct (String.eqb_spec k ""); simpl; split; congruence.
Qed.

Lemma truthy_inv (o : option string) :
  truthy o = true -> exists k, o = Some k /\ k <> "".
Proof.
  destruct o as [k|]; [|discriminate].
  intros H. exists k. split; [reflexivity | by apply truthy_Some].
Qed.

Lemma example_server_lookup :
  licenses example_server !! example_hash = Some example_license.
Proof. vm_compute. reflexivity. Qed.

Section Validation.

Variable hashLicense : string -> string.

Ltac validate_cases :=
  repeat match goal with
    | |- context [if ?b then _ else _] => destruct b eqn:?; simpl
    | |- context [match ?m !! ?k with _ => _ end] => destruct (m !! k) eqn:?; simpl
    end.

(** C4: the checks of ValidateByKey run in the order missing key, not
    found, expired, inactive, and the first one that fails decides the
    answer; so a license whose expiration date is before [now] is
    reported expired whatever its [isActive] flag says. *)
Theorem validate_first_failing_check_wins (now : Z)
    (licenseKey : option string) (s : Server) :
  (truthy licenseKey = false ->
     api_licenses_validate hashLicense now licenseKey s
     = (s, status_json 400 (Invalid "License key not provided")))
  /\ (forall k, licenseKey = Some k -> k <> "" ->
       licenses s !! hashLicense k = None ->
       api_licenses_validate hashLicense now licenseKey s
       = (s, json (Invalid "License not found")))
  /\ (forall k l, licenseKey = Some k -> k <> "" ->
       licenses s !! hashLicense k = Some l ->
       expirationDate l < now ->
       api_licenses_validate hashLicense now licenseKey s
       = (s, json (Invalid "License expired")))
  /\ (forall k l, licenseKey = Some k -> k <> "" ->
       licenses s !! hashLicense k = Some l ->
       now <= expirationDate l ->
       isActive l = false ->
       api_licenses_validate hashLicense now licenseKey s
       = (s, json (Invalid "License is inactive"))).
Proof.
  unfold api_licenses_validate.
  split; [intros ->; reflexivity|].
  repeat split; intros k; intros; subst licenseKey;
    (assert (truthy (Some k) = true) as -> by (by apply truthy_Some));
    simpl.
  - by rewrite H1.
  - rewrite H1. by destruct (Z.ltb_spec (expirationDate l) now); [|lia].
  - rewrite H1. destruct (Z.ltb_spec (expirationDate l) now); [lia|].
    by rewrite H3.
Qed.

(** The answer to a key that names an unexpired, active license. *)
Lemma validate_valid (now : Z) (k : string) (s : Server) (l : License) :
  k <> "" ->
  licenses s !! hashLicense k = Some l ->
  now <= expirationDate l ->
  isActive l = true ->
  let l' := set_usageCount (usageCount l + 1) l in
  let registry := <[hashLicense k := l']> (licenses s) in
  api_licenses_validate hashLicense now (Some k) s
  = (mkServer registry registry,
     json (ValidKey (customerId l) (expirationDate l) (type l))).
Proof.
  intros Hk Hl Hexp Hact. unfold api_licenses_validate.
  apply truthy_Some in Hk. rewrite Hk. simpl. rewrite Hl.
  destruct (Z.ltb_spec (expirationDate l) now); [lia|].
  rewrite Hact. reflexivity.
Qed.

(** Validations of one license in a row count one use each. *)
Lemma validate_counts_each_call (times : list Z) (k : string) (s : Server)
    (l : License) :
  k <> "" ->
  licenses s !! hashLicense k = Some l ->
  isActive l = true ->
  Forall (fun now => now <= expirationDate l) times ->
  licenses
    (serve hashLicense
       (map (fun now => (now, POST_licenses_validate (Some k))) times) s)
    !! hashLicense k
  = Some (set_usageCount (usageCount l + Z.of_nat (length times)) l).
Proof.
  intros Hk. revert s l.
  induction times as [|now times IH]; intros s l Hl Hact Hexp.
  - simpl. rewrite Hl. f_equal. destruct l. unfold set_usageCount. simpl.
    f_equal. lia.
  - apply Forall_cons in Hexp as [Hnow Hexp]. simpl.
    rewrite (validate_valid now k s l Hk Hl Hnow Hact). simpl.
    rewrite (IH _ (set_usageCount (usageCount l + 1) l));
      [|apply lookup_insert_eq | exact Hact | exact Hexp].
    f_equal. unfold set_usageCount. simpl. f_equal. lia.
Qed.

(** Validations of one license in a row add up in [usageCount]. *)
Lemma validate_adds_up (times : list Z) (k : string) (s : Server)
    (l : License) :
  k <> "" ->
  licenses s !! hashLicense k = Some l ->
  isActive l = true ->
  Forall (fun now => now <= expirationDate l) times ->
  usageCount <$>
    licenses
      (serve hashLicense
         (map (fun now => (now, POST_licenses_validate (Some k))) times) s)
      !! hashLicense k
  = Some (usageCount l + Z.of_nat (length times)).
Proof.
  intros Hk Hl Hact Hexp.
  by rewrite (validate_counts_each_call times k s l).
Qed.

(** C5: ValidateByKey changes the state on success only.  On a license
    that is found, not expired and active it answers [valid: true] and
    stores the record with [usageCount] one higher and every other
    field as it was, leaves every other license alone, and writes the
    file, so that [n] such calls in a row raise [usageCount] by [n]; in
    every other case the answer is [{valid: false, reason}] with one of
    the four reasons and neither [licenses] nor the file changes. *)
Theorem validate_mutates_on_success_only (now : Z)
    (licenseKey : option string) (s : Server) :
  (forall k l, licenseKey = Some k -> k <> "" ->
     licenses s !! hashLicense k = Some l ->
     now <= expirationDate l ->
     isActive l = true ->
     let l' :=
       mkLicense (key l) (customerId l) (type l) (created l)
         (expirationDate l) (validityDays l) (deviceFingerprint l)
         (usageCount l + 1) (isActive l) (name l) (boundDeviceId l)
         (users l) (loginHistory l) in
     let s' := mkServer (<[hashLicense k := l']> (licenses s))
                        (<[hashLicense k := l']> (licenses s)) in
     api_licenses_validate hashLicense now licenseKey s
     = (s', json (ValidKey (customerId l) (expirationDate l) (type l))))
  /\ (forall s' r,
       api_licenses_validate hashLicense now licenseKey s = (s', r) ->
       is_valid r = false ->
       s' = s
       /\ exists reason,
           body r = Invalid reason
           /\ reason ∈ ["License key not provided"; "License not found";
                        "License expired"; "License is inactive"])
  /\ (forall (times : list Z) k l,
       licenseKey = Some k -> k <> "" ->
       licenses s !! hashLicense k = Some l ->
       isActive l = true ->
       Forall (fun t => t <= expirationDate l) times ->
       usageCount <$>
         licenses
           (serve hashLicense
              (map (fun t => (t, POST_licenses_validate licenseKey)) times)
              s) !! hashLicense k
       = Some (usageCount l + Z.of_nat (length times))).
Proof.
  split; [|split].
  - intros k l -> Hk Hl Hexp Hact.
    by rewrite (validate_valid now k s l).
  - unfold api_licenses_validate. intros s' r. validate_cases; intros [= <- <-]; simpl;
      try discriminate; intros _; (split; [reflexivity|]);
      eexists; (split; [reflexivity|]); set_solver.
  - intros times k l -> Hk Hl Hact Hexp. by apply validate_adds_up.
Qed.

End Validation.

(** A run of C4: the example license, looked up 31 days after it was
    issued, is expired although it is active. *)
Lemma validate_first_failing_check_wins_witness :
  isActive example_license = true
  /\ api_licenses_validate example_digest (1000 + 31 * MS_PER_DAY)
       (Some example_key) example_server
     = (example_server, json (Invalid "License expired")).
Proof.
  split; [reflexivity|].
  apply (proj1 (proj2 (proj2
    (validate_first_failing_check_wins example_digest
       (1000 + 31 * MS_PER_DAY) (Some example_key) example_server))))
    with (k := example_key) (l := example_license).
  - reflexivity.
  - discriminate.
  - vm_compute. reflexivity.
  - vm_compute. reflexivity.
Defined.

(** A run of C5: the example license is validated one day after its
    issue and again a day later; the second validation answers
    [valid: true] and raises [usageCount] from 1 to 2. *)
Lemma validate_mutates_on_success_only_witness :
  let s1 :=
    (api_licenses_validate example_digest (1000 + MS_PER_DAY)
       (Some example_key) example_server).1 in
  (usageCount <$> licenses s1 !! example_hash) = Some 1
  /\ exists s2,
      api_licenses_validate example_digest (1000 + 2 * MS_PER_DAY)
        (Some example_key) s1
      = (s2, json (ValidKey "c1" 2592001000 "production"))
      /\ (usageCount <$> licenses s2 !! example_hash) = Some 2
      /\ LICENSES_FILE s2 = licenses s2.
Proof.
  intros s1. split; [vm_compute; reflexivity|].
  eexists. split.
  - apply (proj1 (validate_mutates_on_success_only example_digest
       (1000 + 2 * MS_PER_DAY) (Some example_key) s1))
      with (k := example_key)
           (l := mkLicense example_key "c1" "production" 1000 2592001000 30
                   None 1 true None None None None).
    + reflexivity.
    + discriminate.
    + vm_compute. reflexivity.
    + vm_compute. congruence.
    + reflexivity.
  - split; vm_compute; reflexivity.
Defined.

Section DeviceBinding.

Variable hashLicense : string -> string.

Lemma server_eta (s : Server) : mkServer (licenses s) (LICENSES_FILE s) = s.
Proof. by destruct s. Qed.

Lemma license_eta (l : License) :
  mkLicense (key l) (customerId l) (type l) (created l) (expirationDate l)
    (validityDays l) (deviceFingerprint l) (usageCount l) (isActive l)
    (name l) (boundDeviceId l) (users l) (loginHistory l) = l.
Proof. by destruct l. Qed.

(** A license that is bound to a device is out of reach of
    POST /api/verify-license: whatever the request, the record stays
    exactly as it is. *)
Lemma verify_license_bound_is_final (now : Z)
    (licenseKey deviceId : option string) (s : Server) (h : string)
    (l : License) :
  licenses s !! h = Some l ->
  truthy (boundDeviceId l) = true ->
  licenses (api_verify_license hashLicense now licenseKey deviceId s).1 !! h
  = Some l.
Proof.
  intros Hl Hb. unfold api_verify_license.
  destruct (negb (truthy licenseKey) || negb (truthy deviceId)); [done|].
  set (h' := hashLicense (default "" licenseKey)).
  destruct (licenses s !! h') as [l'|] eqn:Hl'; [|done].
  destruct (expirationDate l' <? now); [done|].
  destruct (negb (isActive l')); [done|].
  destruct (decide (h' = h)) as [->|Hne].
  - assert (l' = l) as -> by congruence.
    rewrite Hb. simpl. case_bool_decide; simpl; [|done].
    by rewrite lookup_insert_eq.
  - repeat case_match; simpl; try done; by rewrite lookup_insert_ne.
Qed.

(** C1: device binding is a one-way, one-time transition.  For a
    license that is found, not expired and active: while it is unbound,
    ValidateWithDevice with device [D] answers [valid: true] with
    [boundDeviceId: D] and stores the record with [boundDeviceId] set
    to [D] and every other field as it was; once it is bound to [D], a
    request with another device is refused with the device-mismatch
    reason and changes nothing, while a request with [D] again answers
    [valid: true] with [boundDeviceId: D] and leaves every record as it
    is; and no request to this operation ever changes a bound license
    again. *)
Theorem device_binding_is_one_way :
  (forall now k D s l,
     k <> "" -> D <> "" ->
     licenses s !! hashLicense k = Some l ->
     now <= expirationDate l -> isActive l = true ->
     truthy (boundDeviceId l) = false ->
     let l' :=
       mkLicense (key l) (customerId l) (type l) (created l)
         (expirationDate l) (validityDays l) (deviceFingerprint l)
         (usageCount l) (isActive l) (name l) (Some D)
         (users l) (loginHistory l) in
     let registry := <[hashLicense k := l']> (licenses s) in
     api_verify_license hashLicense now (Some k) (Some D) s
     = (mkServer registry registry,
        json (ValidDevice
                (if truthy (name l) then default "" (name l)
                 else "VetCare License")
                (expirationDate l) (Some D)
                (Qceiling (daysUntilExpiry (expirationDate l) now)))))
  /\ (forall now k D D' s l,
       k <> "" -> D <> "" -> D' <> "" -> D' <> D ->
       licenses s !! hashLicense k = Some l ->
       now <= expirationDate l -> isActive l = true ->
       boundDeviceId l = Some D ->
       api_verify_license hashLicense now (Some k) (Some D') s
       = (s, json (Invalid "License is bound to a different device")))
  /\ (forall now k D s l,
       k <> "" -> D <> "" ->
       licenses s !! hashLicense k = Some l ->
       now <= expirationDate l -> isActive l = true ->
       boundDeviceId l = Some D ->
       api_verify_license hashLicense now (Some k) (Some D) s
       = (mkServer (licenses s) (licenses s),
          json (ValidDevice
                  (if truthy (name l) then default "" (name l)
                   else "VetCare License")
                  (expirationDate l) (Some D)
                  (Qceiling (daysUntilExpiry (expirationDate l) now)))))
  /\ (forall now licenseKey deviceId s h l,
       licenses s !! h = Some l ->
       truthy (boundDeviceId l) = true ->
       licenses (api_verify_license hashLicense now licenseKey deviceId s).1
         !! h = Some l).
Proof.
  repeat split.
  - intros now k D s l Hk HD Hl Hexp Hact Hb.
    apply truthy_Some in Hk, HD. unfold api_verify_license.
    rewrite Hk, HD. simpl. rewrite Hl.
    destruct (Z.ltb_spec (expirationDate l) now); [lia|].
    assert (negb (isActive l) = false) as -> by (by rewrite Hact).
    by rewrite Hb.
  - intros now k D D' s l Hk HD HD' Hne Hl Hexp Hact Hb.
    apply truthy_Some in Hk, HD, HD'. unfold api_verify_license.
    rewrite Hk, HD'. simpl. rewrite Hl.
    destruct (Z.ltb_spec (expirationDate l) now); [lia|].
    rewrite Hact, Hb, HD. simpl.
    rewrite bool_decide_eq_false_2; [done | congruence].
  - intros now k D s l Hk HD Hl Hexp Hact Hb.
    apply truthy_Some in Hk, HD. unfold api_verify_license.
    rewrite Hk, HD. simpl. rewrite Hl.
    destruct (Z.ltb_spec (expirationDate l) now); [lia|].
    rewrite Hact, Hb, HD. simpl.
    rewrite bool_decide_eq_true_2 by done. simpl.
    unfold saveLicenses, store. simpl. by rewrite insert_id.
  - intros. by apply verify_license_bound_is_final.
Qed.

(** POST /api/verify-license never touches a [usageCount]. *)
Lemma verify_license_keeps_usageCount (now : Z)
    (licenseKey deviceId : option string) (s : Server) (h : string) :
  usageCount <$>
    licenses (api_verify_license hashLicense now licenseKey deviceId s).1 !! h
  = usageCount <$> licenses s !! h.
Proof.
  unfold api_verify_license.
  destruct (negb (truthy licenseKey) || negb (truthy deviceId)); [done|].
  set (h' := hashLicense (default "" licenseKey)).
  destruct (licenses s !! h') as [l'|] eqn:Hl'; [|done].
  destruct (expirationDate l' <? now); [done|].
  destruct (negb (isActive l')); [done|].
  destruct (decide (h' = h)) as [->|Hne].
  - repeat case_match; simpl; try done;
      rewrite lookup_insert_eq, Hl'; reflexivity.
  - repeat case_match; simpl; try done; by rewrite lookup_insert_ne.
Qed.

End DeviceBinding.

(** The example server after device [A] has verified the example license
    one day after it was issued. *)
Lemma example_bound_lookup :
  licenses
    (api_verify_license example_digest (1000 + MS_PER_DAY)
       (Some example_key) (Some "A") example_server).1 !! example_hash
  = Some (set_boundDeviceId (Some "A") example_license).
Proof. vm_compute. reflexivity. Qed.

(** A run of C1: device [A] binds the example license a day after its
    issue; a day later device [B] is turned away and nothing changes;
    another day later device [A] is let in again, still as the bound
    device. *)
Lemma device_binding_is_one_way_witness :
  let bound :=
    mkLicense example_key "c1" "production" 1000 2592001000 30
      None 0 true None (Some "A") None None in
  let s1 := mkServer {[example_hash := bound]} {[example_hash := bound]} in
  api_verify_license example_digest (1000 + MS_PER_DAY)
    (Some example_key) (Some "A") example_server
  = (s1, json (ValidDevice "VetCare License" 2592001000 (Some "A") 29))
  /\ api_verify_license example_digest (1000 + 2 * MS_PER_DAY)
       (Some example_key) (Some "B") s1
     = (s1, json (Invalid "License is bound to a different device"))
  /\ api_verify_license example_digest (1000 + 3 * MS_PER_DAY)
       (Some example_key) (Some "A") s1
     = (s1, json (ValidDevice "VetCare License" 2592001000 (Some "A") 27)).
Proof.
  intros bound s1.
  destruct (device_binding_is_one_way example_digest)
    as (Hbind & Hother & Hsame & _).
  split; [|split].
  - refine (eq_trans
      (Hbind (1000 + MS_PER_DAY) example_key "A" example_server
         example_license _ _ _ _ _ _) _).
    + discriminate.
    + discriminate.
    + vm_compute. reflexivity.
    + vm_compute. congruence.
    + reflexivity.
    + reflexivity.
    + vm_compute. reflexivity.
  - apply (Hother (1000 + 2 * MS_PER_DAY) example_key "A" "B" s1 bound).
    + discriminate.
    + discriminate.
    + discriminate.
    + discriminate.
    + vm_compute. reflexivity.
    + vm_compute. congruence.
    + reflexivity.
    + reflexivity.
  - refine (eq_trans
      (Hsame (1000 + 3 * MS_PER_DAY) example_key "A" s1 bound
         _ _ _ _ _ _) _).
    + discriminate.
    + discriminate.
    + vm_compute. reflexivity.
    + vm_compute. congruence.
    + reflexivity.
    + reflexivity.
    + vm_compute. reflexivity.
Defined.

(** C3 at a failing input: a ValidateWithDevice that answers
    [valid: true] leaves [usageCount] at 0, where the same request to
    ValidateByKey counts one use. *)
Theorem verify_license_does_not_count_usage :
  let now := 1000 + MS_PER_DAY in
  let by_device :=
    api_verify_license example_digest now (Some example_key) (Some "A")
      example_server in
  let by_key :=
    api_licenses_validate example_digest now (Some example_key)
      example_server in
  is_valid by_device.2 = true
  /\ usageCount <$> licenses example_server !! example_hash = Some 0
  /\ usageCount <$> licenses by_device.1 !! example_hash = Some 0
  /\ is_valid by_key.2 = true
  /\ usageCount <$> licenses by_key.1 !! example_hash = Some 1.
Proof. vm_compute. repeat split; reflexivity. Qed.

Section LoginHistory.

Variable hashLicense : string -> string.

Lemma slice_last_length {A} (n : nat) (xs : list A) :
  (length (slice_last n xs) <= n)%nat.
Proof. unfold slice_last. rewrite length_drop. lia. Qed.

Lemma slice_last_short {A} (n : nat) (xs : list A) :
  (length xs <= n)%nat -> slice_last n xs = xs.
Proof.
  intros H. unfold slice_last.
  by replace (length xs - n)%nat with 0%nat by lia.
Qed.

(** Pushing onto a full history drops its oldest record. *)
Lemma slice_last_push {A} (n : nat) (xs : list A) (x : A) :
  (0 < n)%nat -> length xs = n ->
  slice_last n (xs ++ [x]) = drop 1 xs ++ [x].
Proof.
  intros Hn H. unfold slice_last. rewrite length_app. simpl.
  replace (length xs + 1 - n)%nat with 1%nat by lia.
  destruct xs as [|y xs]; [simpl in H; lia | done].
Qed.

(** What [push] followed by the [slice(-100)] guard leaves. *)
Lemma push_then_trim (h : list Login.t) (e : Login.t) :
  (if 100 <? Z.of_nat (length (h ++ [e]))
   then slice_last 100 (h ++ [e]) else h ++ [e])
  = slice_last 100 (h ++ [e]).
Proof.
  destruct (Z.ltb_spec 100 (Z.of_nat (length (h ++ [e])))); [done|].
  symmetry. apply slice_last_short. lia.
Qed.

Lemma history_bounded_store (h : string) (l : License) (s : Server) :
  history_bounded s -> (length (history l) <= 100)%nat ->
  history_bounded (store h l s).
Proof. intros Hs Hl. by apply map_Forall_insert_2. Qed.

Lemma history_bounded_save (s : Server) :
  history_bounded s -> history_bounded (saveLicenses s).
Proof. done. Qed.

Lemma history_bounded_lookup (h : string) (l : License) (s : Server) :
  history_bounded s -> licenses s !! h = Some l ->
  (length (history l) <= 100)%nat.
Proof. intros Hs Hl. by apply (map_Forall_lookup_1 _ _ _ _ Hs Hl). Qed.

Ltac bounded_step :=
  match goal with
  | |- history_bounded (saveLicenses _) => apply history_bounded_save
  | |- history_bounded (store _ _ _) => apply history_bounded_store
  | |- history_bounded (_, _).1 => simpl
  | |- history_bounded _ => assumption
  | H : history_bounded ?s, E : licenses ?s !! _ = Some ?l
    |- (length (history _) <= 100)%nat =>
    apply (history_bounded_lookup _ _ _ H E)
  end.

(** Every handler keeps all login histories within the bound. *)
Lemma handle_history_bounded (now : Z) (req : Request) (s : Server) :
  history_bounded s -> history_bounded (handle hashLicense now req s).1.
Proof.
  intros Hs.
  destruct req; simpl;
    unfold api_stats, api_licenses_create, api_licenses_validate,
      api_licenses_users_add, api_licenses_users, api_licenses_users_put,
      api_licenses_users_delete, api_verify_license,
      api_verify_user_license, api_licenses_deactivate,
      api_licenses_activate, api_licenses_extend, api_licenses_delete,
      try_catch, toISOString, new_Date, mbind, Result_bind;
    repeat case_match; simplify_eq; simpl; try assumption;
    repeat bounded_step.
  all: try (unfold history; simpl; lia).
  all: try (by apply map_Forall_delete).
  all: unfold history; simpl; first [apply slice_last_length | lia].
Qed.

Lemma serve_history_bounded (trace : list (Z * Request)) (s : Server) :
  history_bounded s -> history_bounded (serve hashLicense trace s).
Proof.
  revert s. induction trace as [|[now req] trace IH]; intros s Hs; [done|].
  simpl. apply IH. by apply handle_history_bounded.
Qed.

(** A ValidateUser that answers [valid: true] counts one use. *)
Lemma verify_user_license_counts_usage (now : Z)
    (username licenseKey : option string) (s s' : Server) (r : Response) :
  api_verify_user_license hashLicense now username licenseKey s = (s', r) ->
  is_valid r = true ->
  exists k l,
    licenseKey = Some k
    /\ licenses s !! hashLicense k = Some l
    /\ (usageCount <$> licenses s' !! hashLicense k)
       = Some (usageCount l + 1).
Proof.
  unfold api_verify_user_license.
  destruct (negb (truthy username) || negb (truthy licenseKey)) eqn:Hin;
    [by intros [= <- <-]|].
  apply orb_false_elim in Hin as [_ Hk].
  apply negb_false_iff, truthy_inv in Hk as (k & -> & _). simpl.
  destruct (licenses s !! hashLicense k) as [l|] eqn:Hl;
    [|by intros [= <- <-]].
  repeat case_match; try (by intros [= <- <-]); intros [= <- <-] _;
    exists k, l; (split; [done|]); (split; [done|]); simpl;
    by rewrite lookup_insert_eq.
Qed.

(** C6: [loginHistory] never holds more than 100 records.  In every
    state the server reaches, and across every request, each license
    has at most 100; a ValidateUser that answers [valid: true] appends
    the record [{username, timestamp: now, success: true}] and keeps
    the last 100 records, so a full history loses its oldest one; a
    ValidateUser that answers [valid: false] changes nothing. *)
Theorem loginHistory_keeps_last_100 :
  (forall s h l,
     reachable hashLicense s -> licenses s !! h = Some l ->
     (length (history l) <= 100)%nat)
  /\ (forall now req s,
       history_bounded s ->
       history_bounded (handle hashLicense now req s).1)
  /\ (forall now username licenseKey s s' r,
       api_verify_user_license hashLicense now username licenseKey s
       = (s', r) ->
       is_valid r = true ->
       exists k l l',
         licenseKey = Some k
         /\ licenses s !! hashLicense k = Some l
         /\ licenses s' !! hashLicense k = Some l'
         /\ let e := Login.mk username now true in
            history l' = slice_last 100 (history l ++ [e])
            /\ (length (history l') <= 100)%nat
            /\ ((length (history l) < 100)%nat ->
                history l' = history l ++ [e])
            /\ (length (history l) = 100%nat ->
                history l' = drop 1 (history l) ++ [e]))
  /\ (forall now username licenseKey s s' r,
       api_verify_user_license hashLicense now username licenseKey s
       = (s', r) ->
       is_valid r = false ->
       s' = s).
Proof.
  split; [|split; [|split]].
  - intros s h l [trace <-] Hl.
    eapply history_bounded_lookup; [|exact Hl].
    apply serve_history_bounded. apply map_Forall_empty.
  - intros. by apply handle_history_bounded.
  - intros now username licenseKey s s' r.
    unfold api_verify_user_license.
    destruct (negb (truthy username) || negb (truthy licenseKey)) eqn:Hin;
      [by intros [= <- <-]|].
    apply orb_false_elim in Hin as [_ Hk].
    apply negb_false_iff, truthy_inv in Hk as (k & -> & _). simpl.
    destruct (licenses s !! hashLicense k) as [l|] eqn:Hl;
      [|by intros [= <- <-]].
    destruct (expirationDate l <? now); [by intros [= <- <-]|].
    destruct (negb (isActive l)); [by intros [= <- <-]|].
    destruct (users l) as [[|u us]|]; try (by intros [= <- <-]).
    destruct (find (username_is username) (u :: us)) as [user|];
      [|by intros [= <- <-]].
    destruct (negb (User.isActive user)); [by intros [= <- <-]|].
    cbv zeta. rewrite push_then_trim. intros [= <- <-] _.
    exists k, l. eexists. split; [done|]. split; [done|].
    split; [apply lookup_insert_eq|]. unfold history. simpl.
    split; [done|]. split; [apply slice_last_length|].
    split; intros Hlen.
    + apply slice_last_short. rewrite length_app. simpl. lia.
    + apply slice_last_push; [lia | done].
  - intros now username licenseKey s s' r.
    unfold api_verify_user_license.
    repeat case_match; intros [= <- <-]; simpl; first [done | discriminate].
Qed.

End LoginHistory.

(** A run of C6: after 105 logins the example license holds 100 records,
    the oldest of them the sixth login. *)
Lemma loginHistory_keeps_last_100_witness :
  let s := serve example_digest example_trace (loadLicenses ∅) in
  (forall l, licenses s !! example_hash = Some l ->
             (length (history l) <= 100)%nat)
  /\ (length ∘ history <$> licenses s !! example_hash) = Some 100%nat
  /\ (head ∘ history <$> licenses s !! example_hash)
     = Some (Some (Login.mk (Some "ahmed") 2005 true))
  /\ (usageCount <$> licenses s !! example_hash) = Some 105.
Proof.
  intros s. split.
  - intros l Hl.
    apply (proj1 (loginHistory_keeps_last_100 example_digest) s example_hash l).
    + exists example_trace. reflexivity.
    + exact Hl.
  - vm_compute. repeat split; reflexivity.
Defined.

Section Users.

Lemma find_username_is_None (username : option string) (us : list User.t) :
  (forall u, u ∈ us -> User.username u <> username) ->
  find (username_is username) us = None.
Proof.
  induction us as [|u us IH]; intros H; [done|]. simpl.
  unfold username_is at 1. rewrite bool_decide_eq_false_2.
  - apply IH. intros v Hv. apply H. by right.
  - apply H. by left.
Qed.

Lemma find_username_is_Some (username : option string) (us : list User.t) :
  (exists u, u ∈ us /\ User.username u = username) ->
  exists u, find (username_is username) us = Some u.
Proof.
  induction us as [|u us IH]; intros (v & Hv & Hname).
  - by apply elem_of_nil in Hv.
  - simpl. unfold username_is at 1. case_bool_decide; [by eexists|].
    apply IH. exists v. split; [|done].
    apply elem_of_cons in Hv as [->|Hv]; [done | exact Hv].
Qed.

Lemma store_same (hash : string) (l : License) (s : Server) :
  licenses s !! hash = Some l -> store hash l s = s.
Proof.
  intros H. unfold store. rewrite insert_id by done. by destruct s.
Qed.

(** The outcomes of POST /api/licenses/:hash/users on a stored
    license. *)
Lemma add_user_duplicate (now : Z) (hash : string)
    (username role : option string) (s : Server) (l : License) :
  licenses s !! hash = Some l ->
  (exists u, u ∈ default [] (users l) /\ User.username u = username) ->
  api_licenses_users_add now hash username role s
  = (s, status_json 400 (Error "User already exists in this license")).
Proof.
  unfold api_licenses_users_add. intros Hl Hdup. rewrite Hl.
  destruct (users l) as [us|] eqn:Hus; simpl in Hdup.
  - rewrite Hus. simpl.
    destruct (find_username_is_Some _ _ Hdup) as [u ->].
    by rewrite store_same.
  - destruct Hdup as (u & Hu & _). by apply elem_of_nil in Hu.
Qed.

Lemma add_user_fresh (now : Z) (hash : string)
    (username role : option string) (s : Server) (l : License) :
  licenses s !! hash = Some l ->
  (forall u, u ∈ default [] (users l) -> User.username u <> username) ->
  let user := User.mk username (default "user" role) now true in
  let l' := set_users (Some (default [] (users l) ++ [user])) l in
  let registry := <[hash := l']> (licenses s) in
  api_licenses_users_add now hash username role s
  = (mkServer registry registry,
     status_json 201 (UserBody "User added to license" user)).
Proof.
  unfold api_licenses_users_add. intros Hl Hfresh. rewrite Hl.
  destruct (users l) as [us|] eqn:Hus; simpl in Hfresh |- *.
  - rewrite Hus. simpl. rewrite find_username_is_None by done.
    unfold saveLicenses, store. simpl.
    by rewrite !insert_insert_eq.
  - unfold saveLicenses, store. simpl.
    by rewrite !insert_insert_eq.
Qed.

(** C10: AddUser does not look at the username.  With a missing or
    empty [username], on a license that has no such user yet, it
    answers 201 and appends a user carrying that very username; the
    same request again is then refused as a duplicate. *)
Theorem add_user_accepts_blank_username (now now' : Z) (hash : string)
    (username role role' : option string) (s : Server) (l : License) :
  username = None \/ username = Some "" ->
  licenses s !! hash = Some l ->
  (forall u, u ∈ default [] (users l) -> User.username u <> username) ->
  exists s' user,
    api_licenses_users_add now hash username role s
    = (s', status_json 201 (UserBody "User added to license" user))
    /\ User.username user = username
    /\ (users <$> licenses s' !! hash)
       = Some (Some (default [] (users l) ++ [user]))
    /\ api_licenses_users_add now' hash username role' s'
       = (s', status_json 400 (Error "User already exists in this license")).
Proof.
  intros _ Hl Hfresh.
  pose proof (add_user_fresh now hash username role s l Hl Hfresh) as Hadd.
  cbv zeta in Hadd.
  do 2 eexists. split; [exact Hadd|]. split; [done|].
  simpl. rewrite lookup_insert_eq. split; [done|].
  eapply add_user_duplicate; [simpl; apply lookup_insert_eq|].
  exists (User.mk username (default "user" role) now true).
  split; [|reflexivity]. simpl.
  apply elem_of_app. right. by apply list_elem_of_singleton.
Qed.

End Users.

(** User names are compared exactly: [Ahmed] is not [ahmed]. *)
Lemma add_user_is_case_sensitive :
  let s :=
    (api_licenses_users_add 1500 example_hash (Some "ahmed") (Some "doctor")
       example_server).1 in
  (api_licenses_users_add 1600 example_hash (Some "Ahmed") None s).2
  = status_json 201
      (UserBody "User added to license" (User.mk (Some "Ahmed") "user" 1600 true)).
Proof. vm_compute. reflexivity. Qed.

(** A run of C10: a request without a username adds a nameless user to
    the example license. *)
Lemma add_user_accepts_blank_username_witness :
  exists s' user,
    api_licenses_users_add 1500 example_hash None None example_server
    = (s', status_json 201 (UserBody "User added to license" user))
    /\ User.username user = None
    /\ (users <$> licenses s' !! example_hash) = Some (Some ([] ++ [user]))
    /\ api_licenses_users_add 1600 example_hash None None s'
       = (s', status_json 400 (Error "User already exists in this license")).
Proof.
  apply (add_user_accepts_blank_username 1500 1600 example_hash None None None
           example_server example_license).
  - by left.
  - vm_compute. reflexivity.
  - intros u Hu. by apply elem_of_nil in Hu.
Defined.

Section Statistics.

Lemma days_nonnegative (e now : Z) :
  Qle_bool (inject_Z 0) (daysUntilExpiry e now) = (now <=? e).
Proof.
  unfold daysUntilExpiry, Qle_bool, Qdiv, Qmult, Qinv, inject_Z. simpl.
  rewrite ?Z.mul_1_r. change (0 * _) with 0.
  destruct (Z.leb_spec 0 (e - now)), (Z.leb_spec now e);
    first [reflexivity | lia].
Qed.

Lemma days_at_most_30 (e now : Z) :
  Qle_bool (daysUntilExpiry e now) (inject_Z 30)
  = (e <=? now + 30 * MS_PER_DAY).
Proof.
  unfold daysUntilExpiry, Qle_bool, Qdiv, Qmult, Qinv, inject_Z, MS_PER_DAY.
  simpl. rewrite ?Z.mul_1_r. change (30 * _) with 2592000000.
  destruct (Z.leb_spec (e - now) 2592000000),
    (Z.leb_spec e (now + 2592000000)); first [reflexivity | lia].
Qed.

(** The counters after the loop, from the counters before it. *)
Lemma stats_fold (now : Z) (ls : list License) (st : Stats) :
  let st' := fold_left (stats_license now) ls st in
  total st' = total st
  /\ active st' = active st + count isActive ls
  /\ inactive st' = inactive st + count (negb ∘ isActive) ls
  /\ expired st' = expired st + count (is_expired now) ls
  /\ expiringIn30Days st'
     = expiringIn30Days st + count (expires_within_30_days now) ls
  /\ timeToResolve st' = timeToResolve st
  /\ available st' = available st.
Proof.
  revert st. induction ls as [|l ls IH]; intros st; simpl.
  - unfold count. simpl. repeat split; lia.
  - destruct (IH (stats_license now st l)) as (Ht & Ha & Hi & He & Hx & Hr & Hv).
    rewrite Ht, Ha, Hi, He, Hx, Hr, Hv. clear IH Ht Ha Hi He Hx Hr Hv.
    unfold stats_license, count, is_expired, expires_within_30_days.
    rewrite days_nonnegative, days_at_most_30. simpl.
    rewrite Z.ltb_antisym.
    destruct (now <=? expirationDate l), (isActive l),
      (expirationDate l <=? now + 30 * MS_PER_DAY); simpl;
      repeat split; lia.
Qed.

Lemma count_complement (p : License -> bool) (ls : list License) :
  count p ls + count (negb ∘ p) ls = Z.of_nat (length ls).
Proof.
  unfold count. induction ls as [|l ls IH]; [done|]. simpl.
  destruct (p l); simpl; lia.
Qed.

(** C9: Stats is one pass over the records as they are at the call.  A
    record counts as expired exactly when its expiration date is before
    [now], as expiring within 30 days exactly when it is not expired
    and expires at most 30 days after [now], and as active or inactive
    by its [isActive] flag; so [active + inactive = total], and
    [available] is [total - active]. *)
Theorem stats_counts_every_record_once (now : Z) (s : Server) :
  exists st,
    api_stats now s = (s, json (StatsBody st))
    /\ total st = Z.of_nat (size (licenses s))
    /\ expired st = count (is_expired now) (Object_values (licenses s))
    /\ expiringIn30Days st
       = count (expires_within_30_days now) (Object_values (licenses s))
    /\ active st = count isActive (Object_values (licenses s))
    /\ inactive st = count (negb ∘ isActive) (Object_values (licenses s))
    /\ active st + inactive st = total st
    /\ available st = Some (total st - active st).
Proof.
  unfold api_stats. eexists. split; [reflexivity|]. simpl.
  edestruct (stats_fold now (Object_values (licenses s)))
    as (Ht & Ha & Hi & He & Hx & _ & _).
  rewrite Ht, Ha, Hi, He, Hx. simpl.
  assert (length (Object_keys (licenses s)) = size (licenses s)) as Hk.
  { unfold Object_keys. rewrite length_fmap. apply length_map_to_list. }
  assert (length (Object_values (licenses s)) = size (licenses s)) as Hv.
  { unfold Object_values. rewrite length_fmap. apply length_map_to_list. }
  pose proof (count_complement isActive (Object_values (licenses s))) as Hc.
  rewrite Hv in Hc. rewrite Hk.
  repeat split; first [lia | reflexivity].
Qed.

End Statistics.

Section Dates.

Variable hashLicense : string -> string.

Lemma new_Date_in_range (t : Z) :
  - MAX_TIME <= t <= MAX_TIME -> new_Date t = Some t.
Proof. intros H. unfold new_Date. by rewrite bool_decide_eq_true_2. Qed.

Lemma new_Date_out_of_range (t : Z) :
  ~ (- MAX_TIME <= t <= MAX_TIME) -> new_Date t = None.
Proof. intros H. unfold new_Date. by rewrite bool_decide_eq_false_2. Qed.

(** C2, amended: for a non-empty [customerId], and a [validityDays]
    (365 when missing) that puts the expiration date within the range
    of JavaScript dates, Issue builds the record with [usageCount] 0,
    [isActive] true, no bound device, no users and no login history,
    stores it under the digest of its key, writes the file, and
    returns it with the digest attached; when the expiration date is
    out of that range it answers 500 and stores nothing. *)
Theorem issue_builds_fresh_record (now : Z) (randomSuffix customerId : string)
    (type : option string) (validityDays : option Z) (s : Server) :
  customerId <> "" ->
  let days := default 365 validityDays in
  let expiry := now + days * MS_PER_DAY in
  let licenseKey := generateLicenseKey randomSuffix customerId in
  let hash := hashLicense licenseKey in
  let license :=
    mkLicense licenseKey customerId (default "production" type) now expiry
      days None 0 true None None None None in
  let registry := <[hash := license]> (licenses s) in
  (- MAX_TIME <= expiry <= MAX_TIME ->
     api_licenses_create hashLicense now randomSuffix (Some customerId)
       type validityDays s
     = (mkServer registry registry,
        status_json 201
          (LicenseBody "License created successfully" hash license))
     /\ registry !! hash = Some license
     /\ usageCount license = 0
     /\ isActive license = true
     /\ boundDeviceId license = None
     /\ default [] (users license) = []
     /\ loginHistory license = None)
  /\ (~ (- MAX_TIME <= expiry <= MAX_TIME) ->
       api_licenses_create hashLicense now randomSuffix (Some customerId)
         type validityDays s
       = (s, status_json 500 (Error "Invalid time value"))).
Proof.
  intros Hc days expiry licenseKey hash license registry.
  apply truthy_Some in Hc. unfold api_licenses_create. rewrite Hc. simpl.
  replace (now + default 365 validityDays * 24 * 60 * 60 * 1000)
    with expiry by (unfold expiry, days, MS_PER_DAY; lia).
  split.
  - intros Hr. rewrite new_Date_in_range by done. simpl.
    split; [reflexivity|]. split; [apply lookup_insert_eq|]. done.
  - intros Hr. by rewrite new_Date_out_of_range.
Qed.

(** C7, amended: Extend answers 400 unless [daysToAdd] is a positive
    number; for an existing license and [daysToAdd > 0] whose new
    expiration date is within the range of JavaScript dates it moves
    [expirationDate] forward by exactly [daysToAdd * 86400] seconds,
    adds [daysToAdd] to [validityDays], changes no other field and no
    other license, writes the file and returns the new record; when the
    new date is out of that range it answers 500 and changes nothing. *)
Theorem extend_adds_days (hash : string) (s : Server) :
  hash <> "" ->
  api_licenses_extend hash None s
  = (s, status_json 400
          (Error "License hash and positive daysToAdd are required"))
  /\ (forall d, d <= 0 ->
       api_licenses_extend hash (Some d) s
       = (s, status_json 400
               (Error "License hash and positive daysToAdd are required")))
  /\ (forall d l,
       0 < d -> licenses s !! hash = Some l ->
       let expiry := expirationDate l + d * 86400 * 1000 in
       let l' :=
         mkLicense (key l) (customerId l) (type l) (created l) expiry
           (validityDays l + d) (deviceFingerprint l) (usageCount l)
           (isActive l) (name l) (boundDeviceId l) (users l)
           (loginHistory l) in
       let registry := <[hash := l']> (licenses s) in
       (- MAX_TIME <= expiry <= MAX_TIME ->
          api_licenses_extend hash (Some d) s
          = (mkServer registry registry,
             json (LicenseBody
                     ("License extended by " +:+ pretty d +:+ " days")
                     hash l')))
       /\ (~ (- MAX_TIME <= expiry <= MAX_TIME) ->
            api_licenses_extend hash (Some d) s
            = (s, status_json 500 (Error "Invalid time value")))).
Proof.
  intros Hh. apply truthy_Some in Hh. unfold api_licenses_extend.
  rewrite Hh. simpl. split; [reflexivity|]. split.
  - intros d Hd. destruct (Z.eqb_spec d 0); simpl; [done|].
    destruct (Z.leb_spec d 0); [done | lia].
  - intros d l Hd Hl.
    destruct (Z.eqb_spec d 0); [lia|].
    destruct (Z.leb_spec d 0); [lia|]. simpl. rewrite Hl.
    replace (expirationDate l + d * 24 * 60 * 60 * 1000)
      with (expirationDate l + d * 86400 * 1000) by lia.
    split; intros Hr.
    + by rewrite new_Date_in_range.
    + by rewrite new_Date_out_of_range.
Qed.

End Dates.

(** C2 as stated fails: customer [c1] is not empty, yet with a validity
    of 10^11 days the request is answered 500 and no record is stored. *)
Lemma issue_beyond_date_range :
  api_licenses_create example_digest 1000 "00AA11BB22CC33DD"
    (Some "c1") None (Some 100000000000) (loadLicenses ∅)
  = (loadLicenses ∅, status_json 500 (Error "Invalid time value")).
Proof. vm_compute. reflexivity. Qed.

(** A run of C2, amended: issuing the example license. *)
Lemma issue_builds_fresh_record_witness :
  api_licenses_create example_digest 1000 "00AA11BB22CC33DD"
    (Some "c1") None (Some 30) (loadLicenses ∅)
  = (example_server,
     status_json 201
       (LicenseBody "License created successfully" example_hash
          example_license)).
Proof.
  refine (eq_trans (proj1 (proj1
    (issue_builds_fresh_record example_digest 1000 "00AA11BB22CC33DD" "c1"
       None (Some 30) (loadLicenses ∅) _) _)) _).
  - discriminate.
  - vm_compute. split; congruence.
  - vm_compute. reflexivity.
Defined.

(** C7 as stated fails: the example license exists and 10^11 is
    positive, yet the request is answered 500 and the expiration date
    stays where it was. *)
Lemma extend_beyond_date_range :
  licenses example_server !! example_hash = Some example_license
  /\ 0 < 100000000000
  /\ api_licenses_extend example_hash (Some 100000000000) example_server
     = (example_server, status_json 500 (Error "Invalid time value"))
  /\ (expirationDate <$> licenses example_server !! example_hash)
     <> Some (expirationDate example_license + 100000000000 * 86400 * 1000).
Proof. vm_compute. repeat split; congruence. Qed.

(** A run of C7, amended: 30 more days for the example license, which
    was issued at 1000 for 30 days. *)
Lemma extend_adds_days_witness :
  let extended :=
    mkLicense example_key "c1" "production" 1000 5184001000 60
      None 0 true None None None None in
  let s' :=
    mkServer {[example_hash := extended]} {[example_hash := extended]} in
  api_licenses_extend example_hash (Some 30) example_server
  = (s', json (LicenseBody "License extended by 30 days" example_hash
                 extended))
  /\ (expirationDate <$> licenses s' !! example_hash)
     = Some (expirationDate example_license + 30 * 86400 * 1000)
  /\ (validityDays <$> licenses s' !! example_hash)
     = Some (validityDays example_license + 30).
Proof.
  intros extended s'. split.
  - refine (eq_trans (proj1 (proj2 (proj2
      (extend_adds_days example_hash example_server _)) 30 example_license
      _ _) _) _).
    + discriminate.
    + reflexivity.
    + vm_compute. reflexivity.
    + vm_compute. split; congruence.
    + vm_compute. reflexivity.
  - split; vm_compute; reflexivity.
Defined.

(** * Further properties of the server *)

Section LicensesFile.

Lemma fromEntries_snoc (entries : list (string * License)) (hash : string)
    (license : License) :
  File.fromEntries (entries ++ [(hash, license)])
  = <[hash := license]> (File.fromEntries entries).
Proof. unfold File.fromEntries. by rewrite fold_left_app. Qed.

Lemma fromEntries_reverse (entries : list (string * License)) :
  File.fromEntries entries = list_to_map (reverse entries).
Proof.
  induction entries as [|[hash license] entries IH] using rev_ind; [done|].
  by rewrite fromEntries_snoc, reverse_snoc, IH.
Qed.

Lemma loadLicenses_saveLicenses (licenses : gmap string License) :
  File.loadLicenses (File.saveLicenses licenses) = licenses.
Proof.
  simpl. rewrite fromEntries_reverse.
  rewrite <- (list_to_map_to_list licenses) at 2.
  apply list_to_map_proper; [|apply reverse_Permutation].
  rewrite fmap_reverse, reverse_Permutation. apply NoDup_fst_map_to_list.
Qed.

(** X1: what [saveLicenses] writes, [loadLicenses] reads back as the
    same object, whatever the order of the pairs; and when a file
    names a hash more than once, the last pair is the one loaded. *)
Theorem load_after_save_is_identity :
  (forall licenses : gmap string License,
     File.loadLicenses (File.saveLicenses licenses) = licenses)
  /\ (forall entries entries' : list (string * License),
       NoDup entries.*1 -> entries ≡ₚ entries' ->
       File.loadLicenses (File.Entries entries')
       = File.loadLicenses (File.Entries entries))
  /\ (forall entries hash license,
       File.loadLicenses (File.Entries (entries ++ [(hash, license)]))
         !! hash = Some license).
Proof.
  split; [|split].
  - apply loadLicenses_saveLicenses.
  - intros entries entries' Hnd Hp. simpl. rewrite !fromEntries_reverse.
    apply list_to_map_proper.
    + by rewrite fmap_reverse, reverse_Permutation, <- Hp.
    + by rewrite !reverse_Permutation.
  - intros entries hash license. simpl. rewrite fromEntries_snoc.
    apply lookup_insert_eq.
Qed.

End LicensesFile.

(** A run of X1: two pairs in either order load as the same object. *)
Lemma load_after_save_is_identity_witness :
  File.loadLicenses
    (File.Entries [("b", set_isActive false example_license);
                   ("a", example_license)])
  = File.loadLicenses
      (File.Entries [("a", example_license);
                     ("b", set_isActive false example_license)]).
Proof.
  apply (proj1 (proj2 load_after_save_is_identity)).
  - apply NoDup_cons. split; [|apply NoDup_singleton].
    by intros ?%list_elem_of_singleton.
  - apply perm_swap.
Defined.

Section Invariants.

Variable hashLicense : string -> string.

Ltac handler_cases :=
  unfold api_stats, api_licenses_create, api_licenses_validate,
    api_licenses_users_add, api_licenses_users, api_licenses_users_put,
    api_licenses_users_delete, api_verify_license,
    api_verify_user_license, api_licenses_deactivate,
    api_licenses_activate, api_licenses_extend, api_licenses_delete,
    try_catch, toISOString, new_Date, mbind, Result_bind;
  repeat case_match; simplify_eq; simpl.

(** *** User names *)

Lemma update_first_usernames (p : User.t -> bool) (b : bool)
    (us : list User.t) :
  User.username <$> update_first p (User.set_isActive b) us
  = User.username <$> us.
Proof.
  induction us as [|u us IH]; [done|]. csimpl.
  destruct (p u); csimpl; [done | by rewrite IH].
Qed.

Lemma remove_first_subset {A} (p : A -> bool) (xs : list A) (x : A) :
  x ∈ remove_first p xs -> x ∈ xs.
Proof.
  induction xs as [|y xs IH]; [done|]. simpl.
  destruct (p y); [by right|].
  intros [->|H]%elem_of_cons; [by left | right; by apply IH].
Qed.

Lemma remove_first_NoDup (p : User.t -> bool) (us : list User.t) :
  NoDup (User.username <$> us) ->
  NoDup (User.username <$> remove_first p us).
Proof.
  induction us as [|u us IH]; [done|]. csimpl.
  intros [Hu Hnd]%NoDup_cons. destruct (p u); [done|]. csimpl.
  apply NoDup_cons. split; [|by apply IH].
  intros (v & Hv & Hin)%list_elem_of_fmap. apply Hu.
  apply list_elem_of_fmap. exists v. split; [done|].
  by apply remove_first_subset in Hin.
Qed.

Lemma find_username_is_fresh (username : option string)
    (us : list User.t) :
  find (username_is username) us = None ->
  username ∉ User.username <$> us.
Proof.
  intros Hf (u & -> & Hu)%list_elem_of_fmap.
  apply list_elem_of_In in Hu.
  pose proof (find_none _ _ Hf u Hu) as Hp. unfold username_is in Hp.
  by rewrite bool_decide_eq_true_2 in Hp.
Qed.

Lemma usernames_snoc_NoDup (username : option string) (u : User.t)
    (us : list User.t) :
  User.username u = username ->
  find (username_is username) us = None ->
  NoDup (User.username <$> us) ->
  NoDup (User.username <$> us ++ [u]).
Proof.
  intros <- Hf Hnd. rewrite fmap_app. simpl.
  apply NoDup_app. split; [done|]. split; [|apply NoDup_singleton].
  intros x Hx ->%list_elem_of_singleton.
  by apply (find_username_is_fresh _ _ Hf).
Qed.

Ltac unique_step :=
  match goal with
  | |- usernames_unique _ => unfold usernames_unique; simpl
  | |- map_Forall _ (<[_ := _]> _) => apply map_Forall_insert_2
  | |- map_Forall _ (delete _ _) => apply map_Forall_delete
  | H : usernames_unique ?s |- map_Forall _ (licenses ?s) => exact H
  end.

Lemma handle_usernames_unique (now : Z) (req : Request) (s : Server) :
  usernames_unique s -> usernames_unique (handle hashLicense now req s).1.
Proof.
  intros Hs.
  destruct req; simpl; handler_cases; try assumption;
    repeat unique_step;
    repeat match goal with
      | E : licenses s !! _ = Some ?l |- _ =>
        pose proof (map_Forall_lookup_1 _ _ _ _ Hs E) as Hnd;
        simpl in Hnd; clear E
      end;
    unfold users_of in *; simpl in *;
    repeat match goal with
      | E : users _ = _ |- _ => rewrite E in *; simpl in *
      end;
    try assumption; try apply NoDup_nil_2.
  all: first [ by apply NoDup_singleton
             | by eapply usernames_snoc_NoDup
             | by rewrite update_first_usernames
             | by apply remove_first_NoDup ].
Qed.

Lemma serve_usernames_unique (trace : list (Z * Request)) (s : Server) :
  usernames_unique s -> usernames_unique (serve hashLicense trace s).
Proof.
  revert s. induction trace as [|[now req] trace IH]; intros s Hs; [done|].
  simpl. apply IH. by apply handle_usernames_unique.
Qed.

(** *** Login records and the use counter *)

Lemma history_push_sound (h : list Login.t) (username : option string)
    (now count : Z) :
  truthy username = true ->
  Forall (fun e => Login.success e = true
                   /\ truthy (Login.username e) = true) h ->
  Z.of_nat (length h) <= count ->
  let h' := slice_last 100 (h ++ [Login.mk username now true]) in
  Forall (fun e => Login.success e = true
                   /\ truthy (Login.username e) = true) h'
  /\ Z.of_nat (length h') <= count + 1.
Proof.
  intros Hu Hall Hlen h'. split.
  - apply Forall_drop, Forall_app. split; [done|].
    by apply Forall_singleton.
  - unfold h', slice_last. rewrite length_drop, length_app. simpl. lia.
Qed.

Lemma handle_history_sound (now : Z) (req : Request) (s : Server) :
  history_sound s -> history_sound (handle hashLicense now req s).1.
Proof.
  intros Hs.
  destruct req; simpl;
    handler_cases; try assumption;
    unfold history_sound; simpl;
    repeat first [ apply map_Forall_insert_2
                 | apply map_Forall_delete
                 | exact Hs ];
    repeat match goal with
      | E : licenses s !! _ = Some ?l |- _ =>
        pose proof (map_Forall_lookup_1 _ _ _ _ Hs E) as [Hall Hlen];
        simpl in Hall, Hlen; clear E
      end;
    unfold history in *; simpl in *;
    try (split; [done | lia]).
  all: match goal with
       | H : negb (truthy ?u) || _ = false, T : (100 <? _) = _,
         A : Forall _ ?h |- _ =>
         apply orb_false_elim in H as [Hu%negb_false_iff _];
         pose proof (push_then_trim h (Login.mk u now true)) as Ht;
         rewrite T in Ht; try rewrite Ht;
         by apply history_push_sound
       end.
Qed.

Lemma serve_history_sound (trace : list (Z * Request)) (s : Server) :
  history_sound s -> history_sound (serve hashLicense trace s).
Proof.
  revert s. induction trace as [|[now req] trace IH]; intros s Hs; [done|].
  simpl. apply IH. by apply handle_history_sound.
Qed.

(** *** What no request changes *)

Lemma handle_keeps_identity (now : Z) (req : Request) (s : Server)
    (h : string) (l : License) :
  licenses s !! h = Some l ->
  ~ replaces hashLicense h req ->
  exists l',
    licenses (handle hashLicense now req s).1 !! h = Some l'
    /\ same_license l l'.
Proof.
  intros Hl Hnew. unfold same_license.
  destruct req; simpl in Hnew; cbn [handle];
    unfold api_stats, api_licenses_create, api_licenses_validate,
      api_licenses_users_add, api_licenses_users, api_licenses_users_put,
      api_licenses_users_delete, api_verify_license,
      api_verify_user_license, api_licenses_deactivate,
      api_licenses_activate, api_licenses_extend, api_licenses_delete,
      try_catch, toISOString, new_Date, mbind, Result_bind,
      saveLicenses, store;
    repeat case_match; simplify_eq; cbn [fst snd licenses LICENSES_FILE];
    repeat match goal with
      | |- context [<[?i := _]> _ !! ?j] =>
        destruct (decide (i = j)); simplify_map_eq
      | |- context [delete ?i _ !! ?j] =>
        destruct (decide (i = j)); simplify_map_eq
      end;
    simplify_eq; try done; rewrite ?Hl;
    eexists; (split; [reflexivity|]); simpl; repeat split; try done;
    try lia.
  all: intros Hb; rewrite Hb in *; done.
Qed.

Lemma same_license_trans (l1 l2 l3 : License) :
  same_license l1 l2 -> same_license l2 l3 -> same_license l1 l3.
Proof.
  unfold same_license.
  intros (Hk & Hc & Ht & Hd & Hu & Hb) (Hk' & Hc' & Ht' & Hd' & Hu' & Hb').
  repeat split; try congruence; try lia.
  intros H. rewrite Hb', (Hb H); [done|]. by rewrite (Hb H).
Qed.

(** X3: a license keeps its identity.  Over any run of requests that
    neither deletes the license nor issues one with the same digest,
    the record is still there with the key, customer, type and creation
    time it had; its [usageCount] has not gone down; and if it was
    bound to a device it is still bound to that device. *)
Theorem license_identity_is_stable (trace : list (Z * Request))
    (s : Server) (h : string) (l : License) :
  licenses s !! h = Some l ->
  Forall (fun step => ~ replaces hashLicense h step.2) trace ->
  exists l',
    licenses (serve hashLicense trace s) !! h = Some l'
    /\ same_license l l'.
Proof.
  revert s l. induction trace as [|[now req] trace IH]; intros s l Hl Hok.
  - exists l. split; [done|]. unfold same_license.
    repeat split; try done; lia.
  - apply Forall_cons in Hok as [Hreq Hok]. simpl in Hreq |- *.
    destruct (handle_keeps_identity now req s h l Hl Hreq)
      as (l1 & Hl1 & Hsame).
    destruct (IH _ l1 Hl1 Hok) as (l' & Hl' & Hsame').
    exists l'. split; [done|]. by eapply same_license_trans.
Qed.

(** X4: user names stay unique.  Every request keeps the user names of
    each license pairwise different, so in every state the server
    reaches no license lists a name twice. *)
Theorem usernames_stay_unique :
  (forall now req s,
     usernames_unique s ->
     usernames_unique (handle hashLicense now req s).1)
  /\ (forall s h l,
       reachable hashLicense s -> licenses s !! h = Some l ->
       NoDup (User.username <$> users_of l)).
Proof.
  split; [apply handle_usernames_unique|].
  intros s h l [trace <-] Hl.
  eapply (map_Forall_lookup_1 _ _ _ _
            (serve_usernames_unique trace (loadLicenses ∅) _) Hl).
  Unshelve. apply map_Forall_empty.
Qed.

(** X5: only successes are recorded, and each was counted.  In every
    state the server reaches, each login record of a license has
    [success: true] and a non-empty username, and the license's
    [usageCount] is at least the number of its login records; every
    request keeps it so. *)
Theorem login_records_are_counted_successes :
  (forall now req s,
     history_sound s -> history_sound (handle hashLicense now req s).1)
  /\ (forall s h l,
       reachable hashLicense s -> licenses s !! h = Some l ->
       Forall (fun e => Login.success e = true
                        /\ truthy (Login.username e) = true) (history l)
       /\ Z.of_nat (length (history l)) <= usageCount l).
Proof.
  split; [apply handle_history_sound|].
  intros s h l [trace <-] Hl.
  eapply (map_Forall_lookup_1 _ _ _ _
            (serve_history_sound trace (loadLicenses ∅) _) Hl).
  Unshelve. apply map_Forall_empty.
Qed.

End Invariants.

(** A run of X3: adding a user, binding device [A], a refused device [B]
    and a validation leave the example license the same license, bound
    to [A] and used once. *)
Lemma license_identity_is_stable_witness :
  exists l',
    licenses
      (serve example_digest
         [(1500, POST_licenses_users example_hash (Some "ahmed") None);
          (1600, POST_verify_license (Some example_key) (Some "A"));
          (1700, POST_verify_license (Some example_key) (Some "B"));
          (1800, POST_licenses_validate (Some example_key))]
         example_server) !! example_hash = Some l'
    /\ same_license example_license l'.
Proof.
  apply license_identity_is_stable.
  - vm_compute. reflexivity.
  - repeat (apply Forall_cons; split; [simpl; tauto|]). apply Forall_nil_2.
Defined.

(** A run of X4: the example license with [ahmed] on it lists him
    once. *)
Lemma usernames_stay_unique_witness :
  NoDup (User.username <$> users_of example_license_ahmed).
Proof.
  apply (proj2 (usernames_stay_unique example_digest)
           (serve example_digest (take 2 example_trace) (loadLicenses ∅))
           example_hash example_license_ahmed).
  - exists (take 2 example_trace). reflexivity.
  - vm_compute. reflexivity.
Defined.

(** A run of X5: after the first login of the example trace the example
    license has one login record, a success of [ahmed], and one use. *)
Lemma login_records_are_counted_successes_witness :
  let l :=
    set_usageCount 1
      (set_loginHistory (Some [Login.mk (Some "ahmed") 2000 true])
         example_license_ahmed) in
  Forall (fun e => Login.success e = true
                   /\ truthy (Login.username e) = true) (history l)
  /\ Z.of_nat (length (history l)) <= usageCount l.
Proof.
  intros l.
  apply (proj2 (login_records_are_counted_successes example_digest)
           (serve example_digest (take 3 example_trace) (loadLicenses ∅))
           example_hash l).
  - exists (take 3 example_trace). reflexivity.
  - vm_compute. reflexivity.
Defined.

Section UserLifecycle.

Variable hashLicense : string -> string.

Lemma find_snoc_fresh {A} (p : A -> bool) (xs : list A) (x : A) :
  find p xs = None -> p x = true -> find p (xs ++ [x]) = Some x.
Proof.
  induction xs as [|y xs IH]; simpl; intros Hf Hp; [by rewrite Hp|].
  destruct (p y); [done | by apply IH].
Qed.

Lemma find_update_first {A} (p : A -> bool) (f : A -> A) (xs : list A)
    (x : A) :
  (forall y, p (f y) = p y) ->
  find p xs = Some x -> find p (update_first p f xs) = Some (f x).
Proof.
  intros Hp. induction xs as [|y xs IH]; simpl; [done|].
  destruct (p y) eqn:Hy; simpl.
  - intros [= <-]. by rewrite Hp, Hy.
  - rewrite Hy. apply IH.
Qed.

Lemma find_update_first_other {A} (p q : A -> bool) (f : A -> A)
    (xs : list A) :
  (forall y, q (f y) = q y) ->
  (forall y, p y = true -> q y = false) ->
  find q (update_first p f xs) = find q xs.
Proof.
  intros Hq Hpq. induction xs as [|y xs IH]; simpl; [done|].
  destruct (p y) eqn:Hy; simpl; [|by rewrite IH].
  by rewrite Hq, (Hpq y Hy).
Qed.

Lemma remove_first_length {A} (p : A -> bool) (xs : list A) (x : A) :
  find p xs = Some x -> length xs = S (length (remove_first p xs)).
Proof.
  induction xs as [|y xs IH]; simpl; [done|].
  destruct (p y); [done|]. intros H. simpl. by rewrite <- IH.
Qed.

Lemma find_remove_first_other {A} (p q : A -> bool) (xs : list A) :
  (forall y, p y = true -> q y = false) ->
  find q (remove_first p xs) = find q xs.
Proof.
  intros Hpq. induction xs as [|y xs IH]; simpl; [done|].
  destruct (p y) eqn:Hy; simpl; [by rewrite (Hpq y Hy) | by rewrite IH].
Qed.

Lemma find_remove_first_unique (username : option string)
    (us : list User.t) :
  NoDup (User.username <$> us) ->
  find (username_is username) (remove_first (username_is username) us)
  = None.
Proof.
  induction us as [|u us IH]; csimpl; [done|].
  intros [Hu Hnd]%NoDup_cons.
  destruct (username_is username u) eqn:Hp.
  - apply find_username_is_None. intros v Hv Hname. apply Hu.
    unfold username_is in Hp. apply bool_decide_eq_true_1 in Hp.
    rewrite Hp, <- Hname. by apply list_elem_of_fmap_2.
  - simpl. rewrite Hp. by apply IH.
Qed.

Lemma username_is_other (u v : string) (x : User.t) :
  v <> u -> username_is (Some u) x = true -> username_is (Some v) x = false.
Proof.
  unfold username_is. intros Hne Hu%bool_decide_eq_true_1.
  apply bool_decide_eq_false_2. congruence.
Qed.

Lemma username_is_set_isActive (username : option string) (b : bool)
    (x : User.t) :
  username_is username (User.set_isActive b x) = username_is username x.
Proof. done. Qed.

Lemma find_users_of (p : User.t -> bool) (l : License) (x : User.t) :
  find p (users_of l) = Some x ->
  exists y ys, users l = Some (y :: ys).
Proof.
  unfold users_of. destruct (users l) as [[|y ys]|]; simpl; try done.
  by exists y, ys.
Qed.

(** What a request that passes the first four checks goes on to. *)
Lemma verify_user_license_users (now : Z) (u k : string) (s : Server)
    (l : License) :
  u <> "" -> k <> "" ->
  licenses s !! hashLicense k = Some l ->
  now <= expirationDate l -> isActive l = true ->
  api_verify_user_license hashLicense now (Some u) (Some k) s
  = match users_of l with
    | [] => (s, json (Invalid "No users assigned to this license"))
    | us =>
      match find (username_is (Some u)) us with
      | None => (s, json (Invalid "User not assigned to this license"))
      | Some user =>
        if User.isActive user then
          let l' :=
            set_usageCount (usageCount l + 1)
              (set_loginHistory
                 (Some (slice_last 100
                          (history l ++ [Login.mk (Some u) now true]))) l) in
          let registry := <[hashLicense k := l']> (licenses s) in
          (mkServer registry registry,
           json (ValidUser (customerId l) (expirationDate l) (type l)
                   (User.username user) (User.role user)))
        else (s, json (Invalid "User is deactivated"))
      end
    end.
Proof.
  intros Hu%truthy_Some Hk%truthy_Some Hl Hexp Hact.
  unfold api_verify_user_license. rewrite Hu, Hk. simpl. rewrite Hl.
  destruct (Z.ltb_spec (expirationDate l) now); [lia|].
  rewrite Hact. simpl. unfold users_of.
  destruct (users l) as [[|y ys]|]; simpl; try done.
  destruct (if username_is (Some u) y then Some y
            else find (username_is (Some u)) ys) as [user|]; [|done].
  destruct (User.isActive user); simpl; [|done].
  cbv zeta. by rewrite push_then_trim.
Qed.

Lemma verify_user_license_found (now : Z) (u k : string) (s : Server)
    (l : License) (user : User.t) :
  u <> "" -> k <> "" ->
  licenses s !! hashLicense k = Some l ->
  now <= expirationDate l -> isActive l = true ->
  find (username_is (Some u)) (users_of l) = Some user ->
  api_verify_user_license hashLicense now (Some u) (Some k) s
  = if User.isActive user then
      let l' :=
        set_usageCount (usageCount l + 1)
          (set_loginHistory
             (Some (slice_last 100
                      (history l ++ [Login.mk (Some u) now true]))) l) in
      let registry := <[hashLicense k := l']> (licenses s) in
      (mkServer registry registry,
       json (ValidUser (customerId l) (expirationDate l) (type l)
               (User.username user) (User.role user)))
    else (s, json (Invalid "User is deactivated")).
Proof.
  intros Hu Hk Hl Hexp Hact Hf.
  rewrite (verify_user_license_users now u k s l) by done.
  destruct (users_of l) as [|y ys]; [done|]. by rewrite Hf.
Qed.

Lemma verify_user_license_not_found (now : Z) (u k : string) (s : Server)
    (l : License) :
  u <> "" -> k <> "" ->
  licenses s !! hashLicense k = Some l ->
  now <= expirationDate l -> isActive l = true ->
  find (username_is (Some u)) (users_of l) = None ->
  api_verify_user_license hashLicense now (Some u) (Some k) s
  = (s, json (Invalid (match users_of l with
                       | [] => "No users assigned to this license"
                       | _ => "User not assigned to this license"
                       end))).
Proof.
  intros Hu Hk Hl Hexp Hact Hf.
  rewrite (verify_user_license_users now u k s l) by done.
  destruct (users_of l) as [|y ys]; [done|]. by rewrite Hf.
Qed.

Lemma users_put_found (h u : string) (b : bool) (s : Server) (l : License)
    (user : User.t) :
  licenses s !! h = Some l ->
  find (username_is (Some u)) (users_of l) = Some user ->
  api_licenses_users_put h u b s
  = let l' :=
      set_users
        (Some (update_first (username_is (Some u)) (User.set_isActive b)
                 (users_of l))) l in
    let registry := <[h := l']> (licenses s) in
    (mkServer registry registry,
     json (UserBody (if b then "User activated" else "User deactivated")
             (User.set_isActive b user))).
Proof.
  intros Hl Hf. unfold api_licenses_users_put. rewrite Hl.
  destruct (find_users_of _ _ _ Hf) as (y & ys & Hus).
  unfold users_of in *. rewrite Hus in *.
  change (default [] (Some (y :: ys))) with (y :: ys) in *.
  by rewrite Hf.
Qed.

Lemma users_delete_found (h u : string) (s : Server) (l : License)
    (user : User.t) :
  licenses s !! h = Some l ->
  find (username_is (Some u)) (users_of l) = Some user ->
  api_licenses_users_delete h u s
  = let l' :=
      set_users
        (Some (remove_first (username_is (Some u)) (users_of l))) l in
    let registry := <[h := l']> (licenses s) in
    (mkServer registry registry, json (Success "User removed from license")).
Proof.
  intros Hl Hf. unfold api_licenses_users_delete. rewrite Hl.
  destruct (find_users_of _ _ _ Hf) as (y & ys & Hus).
  unfold users_of in *. rewrite Hus in *.
  change (default [] (Some (y :: ys))) with (y :: ys) in *.
  by rewrite Hf.
Qed.

(** X6: the checks of ValidateUser run in the order missing input, not
    found, expired, inactive, no users, user not assigned, user
    deactivated; the first that fails gives the reason and the state
    stays as it was.  A request without a username is refused before
    the license is even looked up. *)
Theorem validate_user_first_failing_check_wins (now : Z)
    (username licenseKey : option string) (s : Server) :
  (truthy username = false \/ truthy licenseKey = false ->
     api_verify_user_license hashLicense now username licenseKey s
     = (s, status_json 400
             (Invalid "Username and license key are required")))
  /\ (forall u k,
       username = Some u -> licenseKey = Some k -> u <> "" -> k <> "" ->
       (licenses s !! hashLicense k = None ->
          api_verify_user_license hashLicense now username licenseKey s
          = (s, json (Invalid "License not found")))
       /\ (forall l,
            licenses s !! hashLicense k = Some l ->
            (expirationDate l < now ->
               api_verify_user_license hashLicense now username licenseKey s
               = (s, json (Invalid "License expired")))
            /\ (now <= expirationDate l -> isActive l = false ->
                 api_verify_user_license hashLicense now username
                   licenseKey s
                 = (s, json (Invalid "License is inactive")))
            /\ (now <= expirationDate l -> isActive l = true ->
                 users_of l = [] ->
                 api_verify_user_license hashLicense now username
                   licenseKey s
                 = (s, json (Invalid "No users assigned to this license")))
            /\ (now <= expirationDate l -> isActive l = true ->
                 users_of l <> [] ->
                 find (username_is username) (users_of l) = None ->
                 api_verify_user_license hashLicense now username
                   licenseKey s
                 = (s, json (Invalid "User not assigned to this license")))
            /\ (forall user,
                 now <= expirationDate l -> isActive l = true ->
                 find (username_is username) (users_of l) = Some user ->
                 User.isActive user = false ->
                 api_verify_user_license hashLicense now username
                   licenseKey s
                 = (s, json (Invalid "User is deactivated"))))).
Proof.
  split.
  - unfold api_verify_user_license. intros [-> | ->]; [done|].
    by rewrite orb_true_r.
  - intros u k -> -> Hu Hk.
    pose proof Hu as Hu'%truthy_Some. pose proof Hk as Hk'%truthy_Some.
    split.
    + intros Hl. unfold api_verify_user_license.
      rewrite Hu', Hk'. simpl. by rewrite Hl.
    + intros l Hl. repeat split.
      * intros Hexp. unfold api_verify_user_license.
        rewrite Hu', Hk'. simpl. rewrite Hl.
        by destruct (Z.ltb_spec (expirationDate l) now); [|lia].
      * intros Hexp Hact. unfold api_verify_user_license.
        rewrite Hu', Hk'. simpl. rewrite Hl.
        destruct (Z.ltb_spec (expirationDate l) now); [lia|].
        by rewrite Hact.
      * intros Hexp Hact Hus.
        rewrite (verify_user_license_users now u k s l) by done.
        by rewrite Hus.
      * intros Hexp Hact Hus Hf.
        rewrite (verify_user_license_not_found now u k s l) by done.
        by destruct (users_of l).
      * intros user Hexp Hact Hf Hoff.
        rewrite (verify_user_license_found now u k s l user) by done.
        by rewrite Hoff.
Qed.

(** X7: a user who has just been added can log in.  On an unexpired,
    active license that has no user of that name yet, AddUser with a
    non-empty username followed by ValidateUser for that name answers
    [valid: true] with the role given at the addition ([user] when none
    was given). *)
Theorem added_user_can_log_in (now now' : Z) (u k : string)
    (role : option string) (s : Server) (l : License) :
  u <> "" -> k <> "" ->
  licenses s !! hashLicense k = Some l ->
  now' <= expirationDate l -> isActive l = true ->
  find (username_is (Some u)) (users_of l) = None ->
  let s1 := (api_licenses_users_add now (hashLicense k) (Some u) role s).1 in
  (api_verify_user_license hashLicense now' (Some u) (Some k) s1).2
  = json (ValidUser (customerId l) (expirationDate l) (type l) (Some u)
            (default "user" role)).
Proof.
  intros Hu Hk Hl Hexp Hact Hf s1. subst s1.
  rewrite (add_user_fresh now (hashLicense k) (Some u) role s l Hl).
  - cbv zeta. cbn [fst].
    rewrite (verify_user_license_found now' u k _
               (set_users
                  (Some (default [] (users l)
                         ++ [User.mk (Some u) (default "user" role) now
                               true])) l)
               (User.mk (Some u) (default "user" role) now true));
      [done | done | done | simpl; apply lookup_insert_eq | done | done |].
    unfold users_of at 1. simpl. apply find_snoc_fresh; [done|].
    unfold username_is. by apply bool_decide_eq_true_2.
  - intros x Hx Hname.
    apply (find_username_is_fresh _ _ Hf). rewrite <- Hname.
    by apply list_elem_of_fmap_2.
Qed.

(** X8: deactivating a user locks that user out and nobody else.  On an
    unexpired, active license, after SetUserActive(false) for an
    assigned user ValidateUser answers that the user is deactivated;
    after SetUserActive(true) it answers [valid: true] again; and the
    lookup of every other user name is as before. *)
Theorem deactivated_user_is_refused (now : Z) (u k : string) (s : Server)
    (l : License) (user : User.t) :
  u <> "" -> k <> "" ->
  licenses s !! hashLicense k = Some l ->
  now <= expirationDate l -> isActive l = true ->
  find (username_is (Some u)) (users_of l) = Some user ->
  let s1 := (api_licenses_users_put (hashLicense k) u false s).1 in
  let s2 := (api_licenses_users_put (hashLicense k) u true s1).1 in
  api_verify_user_license hashLicense now (Some u) (Some k) s1
  = (s1, json (Invalid "User is deactivated"))
  /\ (api_verify_user_license hashLicense now (Some u) (Some k) s2).2
     = json (ValidUser (customerId l) (expirationDate l) (type l) (Some u)
               (User.role user))
  /\ (forall v l1,
       v <> u -> licenses s1 !! hashLicense k = Some l1 ->
       find (username_is (Some v)) (users_of l1)
       = find (username_is (Some v)) (users_of l)).
Proof.
  intros Hu Hk Hl Hexp Hact Hf s1 s2.
  assert (User.username user = Some u) as Hname.
  { apply find_some in Hf as [_ Hp]. unfold username_is in Hp.
    by apply bool_decide_eq_true_1 in Hp. }
  pose proof (users_put_found (hashLicense k) u false s l user Hl Hf) as E1.
  cbv zeta in E1.
  set (l1 := set_users
               (Some (update_first (username_is (Some u))
                        (User.set_isActive false) (users_of l))) l) in *.
  assert (licenses s1 !! hashLicense k = Some l1) as Hl1.
  { subst s1. rewrite E1. apply lookup_insert_eq. }
  assert (find (username_is (Some u)) (users_of l1)
          = Some (User.set_isActive false user)) as Hf1.
  { unfold users_of at 1. simpl. by apply find_update_first. }
  split; [|split].
  - rewrite (verify_user_license_found now u k s1 l1
               (User.set_isActive false user)); done.
  - pose proof (users_put_found (hashLicense k) u true s1 l1 _ Hl1 Hf1)
      as E2. cbv zeta in E2. subst s2. rewrite E2. cbn [fst].
    rewrite (verify_user_license_found now u k _
               (set_users
                  (Some (update_first (username_is (Some u))
                           (User.set_isActive true) (users_of l1))) l1)
               (User.set_isActive true (User.set_isActive false user)));
      [| done | done | simpl; apply lookup_insert_eq | done | done |].
    + simpl. by rewrite Hname.
    + unfold users_of at 1. simpl. by apply find_update_first.
  - intros v l1' Hv Hl1'. assert (l1' = l1) as -> by congruence.
    unfold users_of at 1. simpl.
    apply find_update_first_other; [done|].
    intros y. by apply username_is_other.
Qed.

(** X9: removing a user removes that user only.  RemoveUser of an
    assigned user makes the list one shorter and leaves the lookup of
    every other name as it was; with user names unique, the removed
    name is no longer found, and on an unexpired, active license
    ValidateUser then refuses it, with the no-users reason when the
    list has become empty and the not-assigned reason otherwise. *)
Theorem removed_user_is_gone (now : Z) (u k : string) (s : Server)
    (l : License) (user : User.t) :
  u <> "" -> k <> "" ->
  licenses s !! hashLicense k = Some l ->
  now <= expirationDate l -> isActive l = true ->
  find (username_is (Some u)) (users_of l) = Some user ->
  NoDup (User.username <$> users_of l) ->
  let s1 := (api_licenses_users_delete (hashLicense k) u s).1 in
  exists l1,
    licenses s1 !! hashLicense k = Some l1
    /\ length (users_of l) = S (length (users_of l1))
    /\ find (username_is (Some u)) (users_of l1) = None
    /\ (forall v, v <> u ->
         find (username_is (Some v)) (users_of l1)
         = find (username_is (Some v)) (users_of l))
    /\ api_verify_user_license hashLicense now (Some u) (Some k) s1
       = (s1, json (Invalid (match users_of l1 with
                             | [] => "No users assigned to this license"
                             | _ => "User not assigned to this license"
                             end))).
Proof.
  intros Hu Hk Hl Hexp Hact Hf Hnd s1.
  pose proof (users_delete_found (hashLicense k) u s l user Hl Hf) as E1.
  cbv zeta in E1. subst s1. rewrite E1. cbn [fst licenses].
  eexists. split; [apply lookup_insert_eq|].
  unfold users_of at 2 3 4 6. simpl.
  split; [by eapply remove_first_length|].
  split; [by apply find_remove_first_unique|].
  split.
  - intros v Hv. apply find_remove_first_other.
    intros y. by apply username_is_other.
  - apply verify_user_license_not_found;
      [done | done | simpl; apply lookup_insert_eq | done | done |].
    unfold users_of. simpl. by apply find_remove_first_unique.
Qed.

(** X10: on a stored license, SetUserActive and RemoveUser act exactly
    when the license has a user of that name.  Then they answer 200,
    SetUserActive with the user carrying the new flag; otherwise they
    answer 404 and change nothing, with the message that the users are
    not found when the license never had a users array and that the
    user is not found in the license when the name is not on it. *)
Theorem user_routes_need_the_user (h u : string) (b : bool) (s : Server)
    (l : License) :
  licenses s !! h = Some l ->
  (forall user,
     find (username_is (Some u)) (users_of l) = Some user ->
     (api_licenses_users_put h u b s).2
     = json (UserBody (if b then "User activated" else "User deactivated")
               (User.mk (User.username user) (User.role user)
                  (User.addedAt user) b))
     /\ (api_licenses_users_delete h u s).2
        = json (Success "User removed from license"))
  /\ (find (username_is (Some u)) (users_of l) = None ->
       let e := match users l with
                | None => "Users not found"
                | Some _ => "User not found in license"
                end in
       api_licenses_users_put h u b s = (s, status_json 404 (Error e))
       /\ api_licenses_users_delete h u s = (s, status_json 404 (Error e))).
Proof.
  intros Hl. split.
  - intros user Hf.
    by rewrite (users_put_found h u b s l user),
               (users_delete_found h u s l user).
  - intros Hf. unfold api_licenses_users_put, api_licenses_users_delete.
    rewrite Hl. unfold users_of in Hf.
    destruct (users l) as [us|]; [|done]. simpl in Hf. by rewrite Hf.
Qed.

End UserLifecycle.

Section LicenseLifecycle.

Variable hashLicense : string -> string.

Lemma generateLicenseKey_truthy (randomSuffix customerId : string) :
  generateLicenseKey randomSuffix customerId <> "".
Proof. done. Qed.

Lemma create_in_range (now : Z) (randomSuffix customerId : string)
    (type : option string) (validityDays : option Z) (s : Server) :
  customerId <> "" ->
  let expiry := now + default 365 validityDays * MS_PER_DAY in
  - MAX_TIME <= expiry <= MAX_TIME ->
  let licenseKey := generateLicenseKey randomSuffix customerId in
  let license :=
    mkLicense licenseKey customerId (default "production" type) now expiry
      (default 365 validityDays) None 0 true None None None None in
  let registry := <[hashLicense licenseKey := license]> (licenses s) in
  api_licenses_create hashLicense now randomSuffix (Some customerId)
    type validityDays s
  = (mkServer registry registry,
     status_json 201
       (LicenseBody "License created successfully"
          (hashLicense licenseKey) license)).
Proof.
  intros Hc%truthy_Some expiry Hr. unfold api_licenses_create.
  rewrite Hc. simpl.
  replace (now + default 365 validityDays * 24 * 60 * 60 * 1000)
    with expiry by (unfold expiry, MS_PER_DAY; lia).
  by rewrite new_Date_in_range.
Qed.

Lemma extend_in_range (hash : string) (d : Z) (s : Server) (l : License) :
  hash <> "" -> 0 < d ->
  licenses s !! hash = Some l ->
  let expiry := expirationDate l + d * MS_PER_DAY in
  - MAX_TIME <= expiry <= MAX_TIME ->
  let l' :=
    set_validityDays (validityDays l + d) (set_expirationDate expiry l) in
  let registry := <[hash := l']> (licenses s) in
  api_licenses_extend hash (Some d) s
  = (mkServer registry registry,
     json (LicenseBody ("License extended by " +:+ pretty d +:+ " days")
             hash l')).
Proof.
  intros Hh%truthy_Some Hd Hl expiry Hr. unfold api_licenses_extend.
  rewrite Hh. simpl.
  destruct (Z.eqb_spec d 0); [lia|].
  destruct (Z.leb_spec d 0); [lia|]. simpl. rewrite Hl.
  replace (expirationDate l + d * 24 * 60 * 60 * 1000)
    with expiry by (unfold expiry, MS_PER_DAY; lia).
  by rewrite new_Date_in_range.
Qed.

(** X11: an issued license can be looked up and validated with the key
    it was given.  After an Issue that succeeds, GET /api/licenses/:hash
    with the digest of the new key returns the new record, and
    ValidateByKey with that key, at any time up to the expiration date,
    answers [valid: true] with the customer, expiration date and type
    of the issue. *)
Theorem issued_license_validates (now now' : Z)
    (randomSuffix customerId : string) (type : option string)
    (validityDays : option Z) (s : Server) :
  customerId <> "" ->
  let expiry := now + default 365 validityDays * MS_PER_DAY in
  - MAX_TIME <= expiry <= MAX_TIME ->
  now' <= expiry ->
  let licenseKey := generateLicenseKey randomSuffix customerId in
  let s1 :=
    (api_licenses_create hashLicense now randomSuffix (Some customerId)
       type validityDays s).1 in
  (exists l,
     api_licenses_hash (hashLicense licenseKey) s1
     = (200, Record (hashLicense licenseKey) l)
     /\ key l = licenseKey /\ usageCount l = 0)
  /\ (api_licenses_validate hashLicense now' (Some licenseKey) s1).2
     = json (ValidKey customerId expiry (default "production" type))
  /\ (usageCount <$>
        licenses
          (api_licenses_validate hashLicense now' (Some licenseKey) s1).1
          !! hashLicense licenseKey) = Some 1.
Proof.
  intros Hc expiry Hr Hnow licenseKey s1. subst s1.
  rewrite create_in_range by done. cbv zeta. cbn [fst].
  fold expiry. fold licenseKey.
  set (l := mkLicense licenseKey customerId (default "production" type)
              now expiry (default 365 validityDays) None 0 true None None
              None None).
  split; [|split].
  - exists l. unfold api_licenses_hash. simpl.
    by rewrite lookup_insert_eq.
  - rewrite (validate_valid hashLicense now' licenseKey _ l);
      [done | done | simpl; apply lookup_insert_eq | done | done].
  - rewrite (validate_valid hashLicense now' licenseKey _ l);
      [| done | simpl; apply lookup_insert_eq | done | done].
    simpl. by rewrite lookup_insert_eq.
Qed.

(** X12: a deactivated license is refused by all three validations.
    After Deactivate on an unexpired license, ValidateByKey,
    ValidateWithDevice and ValidateUser all answer that the license is
    inactive, whatever the device or user, and change nothing;
    Activate then puts the record back with [isActive] true and every
    other field as before the deactivation. *)
Theorem deactivated_license_is_refused (now : Z) (k : string) (s : Server)
    (l : License) :
  k <> "" ->
  licenses s !! hashLicense k = Some l ->
  now <= expirationDate l ->
  let s1 := (api_licenses_deactivate (hashLicense k) s).1 in
  api_licenses_validate hashLicense now (Some k) s1
  = (s1, json (Invalid "License is inactive"))
  /\ (forall d, d <> "" ->
       api_verify_license hashLicense now (Some k) (Some d) s1
       = (s1, json (Invalid "License is inactive")))
  /\ (forall u, u <> "" ->
       api_verify_user_license hashLicense now (Some u) (Some k) s1
       = (s1, json (Invalid "License is inactive")))
  /\ licenses (api_licenses_activate (hashLicense k) s1).1 !! hashLicense k
     = Some (set_isActive true l).
Proof.
  intros Hk%truthy_Some Hl Hexp s1. subst s1.
  unfold api_licenses_deactivate. rewrite Hl. cbn [fst].
  set (s1 := saveLicenses (store (hashLicense k) (set_isActive false l) s)).
  assert (licenses s1 !! hashLicense k = Some (set_isActive false l)) as Hl1
    by apply lookup_insert_eq.
  assert ((expirationDate (set_isActive false l) <? now) = false) as Hnot.
  { simpl. by destruct (Z.ltb_spec (expirationDate l) now); [lia|]. }
  repeat split.
  - unfold api_licenses_validate. rewrite Hk. simpl negb. cbv iota.
    change (default "" (Some k)) with k. by rewrite Hl1, Hnot.
  - intros d Hd%truthy_Some. unfold api_verify_license.
    rewrite Hk, Hd. simpl negb. simpl orb. cbv iota.
    change (default "" (Some k)) with k. by rewrite Hl1, Hnot.
  - intros u Hu%truthy_Some. unfold api_verify_user_license.
    rewrite Hk, Hu. simpl negb. simpl orb. cbv iota.
    change (default "" (Some k)) with k. by rewrite Hl1, Hnot.
  - unfold api_licenses_activate. rewrite Hl1. cbn [fst]. simpl.
    by rewrite lookup_insert_eq.
Qed.

(** X13: a deleted license is gone, and only that one.  After Delete of
    an existing license its hash is no longer found, there is one
    record fewer, every other hash holds what it held, ValidateByKey
    with its key answers not found, and a second Delete answers 404. *)
Theorem deleted_license_is_gone (now : Z) (k : string) (s : Server)
    (l : License) :
  k <> "" ->
  licenses s !! hashLicense k = Some l ->
  let s1 := (api_licenses_delete (hashLicense k) s).1 in
  licenses s1 !! hashLicense k = None
  /\ size (licenses s) = S (size (licenses s1))
  /\ (forall h, h <> hashLicense k -> licenses s1 !! h = licenses s !! h)
  /\ api_licenses_validate hashLicense now (Some k) s1
     = (s1, json (Invalid "License not found"))
  /\ api_licenses_delete (hashLicense k) s1
     = (s1, status_json 404 (Error "License not found")).
Proof.
  intros Hk%truthy_Some Hl s1.
  assert (s1 = saveLicenses
                 (mkServer (delete (hashLicense k) (licenses s))
                    (LICENSES_FILE s))) as Hs1.
  { subst s1. unfold api_licenses_delete. by rewrite Hl. }
  clearbody s1.
  assert (licenses s1 !! hashLicense k = None) as Hl1.
  { subst s1. apply lookup_delete_eq. }
  repeat split.
  - done.
  - subst s1. simpl. rewrite <- (insert_delete_id _ _ _ Hl) at 1.
    apply map_size_insert_None, lookup_delete_eq.
  - intros h Hh. subst s1. simpl. by apply lookup_delete_ne.
  - unfold api_licenses_validate. rewrite Hk. simpl negb. cbv iota.
    change (default "" (Some k)) with k. by rewrite Hl1.
  - unfold api_licenses_delete. by rewrite Hl1.
Qed.

(** X14: extensions add up.  Extending an existing license by [d1]
    days and then by [d2] days leaves the server in the state that one
    extension by [d1 + d2] days leaves it in, as long as the final
    expiration date is one a JavaScript date can hold. *)
Theorem extend_twice_adds_up (hash : string) (d1 d2 : Z) (s : Server)
    (l : License) :
  hash <> "" -> 0 < d1 -> 0 < d2 ->
  licenses s !! hash = Some l ->
  - MAX_TIME <= expirationDate l ->
  expirationDate l + (d1 + d2) * MS_PER_DAY <= MAX_TIME ->
  (api_licenses_extend hash (Some d2)
     (api_licenses_extend hash (Some d1) s).1).1
  = (api_licenses_extend hash (Some (d1 + d2)) s).1.
Proof.
  intros Hh Hd1 Hd2 Hl Hlo Hhi.
  assert (0 < MS_PER_DAY) as HD by done.
  rewrite (extend_in_range hash d1 s l), (extend_in_range hash (d1 + d2) s l);
    [| done | lia | done | nia | done | done | done | nia].
  cbv zeta. cbn [fst].
  erewrite extend_in_range;
    [| done | done | simpl; apply lookup_insert_eq | simpl; nia].
  cbv zeta. cbn [fst]. simpl. rewrite !insert_insert_eq.
  unfold set_validityDays, set_expirationDate. simpl.
  replace (validityDays l + d1 + d2) with (validityDays l + (d1 + d2))
    by lia.
  replace (expirationDate l + d1 * MS_PER_DAY + d2 * MS_PER_DAY)
    with (expirationDate l + (d1 + d2) * MS_PER_DAY) by lia.
  done.
Qed.

(** X15: an extension brings an expired license back.  An active
    license whose expiration date has passed is refused as expired;
    once Extend has moved the date to [now] or later, the same
    ValidateByKey answers [valid: true]. *)
Theorem extend_revives_expired_license (now : Z) (k : string) (d : Z)
    (s : Server) (l : License) :
  k <> "" -> hashLicense k <> "" ->
  licenses s !! hashLicense k = Some l ->
  isActive l = true ->
  expirationDate l < now ->
  0 < d ->
  now <= expirationDate l + d * MS_PER_DAY <= MAX_TIME ->
  - MAX_TIME <= expirationDate l ->
  api_licenses_validate hashLicense now (Some k) s
  = (s, json (Invalid "License expired"))
  /\ (api_licenses_validate hashLicense now (Some k)
        (api_licenses_extend (hashLicense k) (Some d) s).1).2
     = json (ValidKey (customerId l)
               (expirationDate l + d * MS_PER_DAY) (type l)).
Proof.
  intros Hk Hh Hl Hact Hexp Hd Hr Hlo. split.
  - pose proof Hk as Hk'%truthy_Some. unfold api_licenses_validate.
    rewrite Hk'. simpl. rewrite Hl.
    by destruct (Z.ltb_spec (expirationDate l) now); [|lia].
  - assert (0 < MS_PER_DAY) as HD by done.
    rewrite (extend_in_range (hashLicense k) d s l) by (done || nia).
    cbv zeta. cbn [fst].
    rewrite (validate_valid hashLicense now k _
               (set_validityDays (validityDays l + d)
                  (set_expirationDate
                     (expirationDate l + d * MS_PER_DAY) l)));
      [done | done | simpl; apply lookup_insert_eq | simpl; lia | done].
Qed.

Lemma remaining_days_bounds (e now : Z) :
  let r := Qceiling (daysUntilExpiry e now) in
  (r - 1) * MS_PER_DAY < e - now <= r * MS_PER_DAY.
Proof.
  unfold daysUntilExpiry, Qceiling, Qfloor, Qopp, Qdiv, Qmult, Qinv,
    inject_Z, MS_PER_DAY.
  simpl. rewrite ?Z.mul_1_r.
  change (Z.pos (1 * (1000 * 60 * 60 * 24))) with 86400000.
  pose proof (Z.div_mod (- (e - now)) 86400000 ltac:(done)) as Hdm.
  pose proof (Z.mod_pos_bound (- (e - now)) 86400000 ltac:(done)) as Hb.
  lia.
Qed.

(** X16: [remainingDays] is the time left, in days, rounded up.  When
    ValidateWithDevice answers [valid: true], the expiration date in
    the answer is at most [remainingDays] days and more than
    [remainingDays - 1] days after [now], [remainingDays] is not
    negative, and the [boundDeviceId] in the answer is the device of
    the request. *)
Theorem remaining_days_round_up (now : Z)
    (licenseKey deviceId : option string) (s s' : Server) (code : Z)
    (licenseName : string) (e : Z) (bound : option string) (r : Z) :
  api_verify_license hashLicense now licenseKey deviceId s
  = (s', mkResponse code (ValidDevice licenseName e bound r)) ->
  0 <= r
  /\ (r - 1) * MS_PER_DAY < e - now <= r * MS_PER_DAY
  /\ bound = deviceId.
Proof.
  unfold api_verify_license.
  destruct (negb (truthy licenseKey) || negb (truthy deviceId)); [done|].
  destruct (licenses s !! _) as [l|]; [|done].
  destruct (Z.ltb_spec (expirationDate l) now); [done|].
  destruct (negb (isActive l)); [done|].
  pose proof (remaining_days_bounds (expirationDate l) now) as Hr.
  cbv zeta in Hr. assert (0 < MS_PER_DAY) as HD by done.
  destruct (negb (truthy (boundDeviceId l))).
  - unfold json. intros ?. simplify_eq. simpl.
    repeat split; try lia; nia.
  - case_bool_decide as Hb; simpl; [|done].
    unfold json. intros ?. simplify_eq.
    repeat split; try lia; try nia.
Qed.

Ltac all_handlers :=
  unfold api_stats, api_licenses_create, api_licenses_validate,
    api_licenses_users_add, api_licenses_users, api_licenses_users_put,
    api_licenses_users_delete, api_verify_license,
    api_verify_user_license, api_licenses_deactivate,
    api_licenses_activate, api_licenses_extend, api_licenses_delete,
    try_catch, toISOString, new_Date, mbind, Result_bind.

(** X17: a refused request changes nothing.  Whatever the request,
    when the answer is an error (status 400 or above) or a
    [{valid: false, reason}], neither [licenses] nor the file has
    changed. *)
Theorem refused_requests_change_nothing (now : Z) (req : Request)
    (s s' : Server) (r : Response) :
  handle hashLicense now req s = (s', r) ->
  400 <= status r \/ (exists reason, body r = Invalid reason) ->
  s' = s.
Proof.
  destruct req; simpl; all_handlers; repeat case_match;
    intros Heq [Hst | [reason Hb]]; simplify_eq; simpl in *;
    try done; try lia.
  all: by apply store_same.
Qed.

End LicenseLifecycle.

Section StatisticsOverTime.

Variable hashLicense : string -> string.

Lemma count_Permutation (p : License -> bool) (ls ls' : list License) :
  ls ≡ₚ ls' -> count p ls = count p ls'.
Proof.
  unfold count. intros H. f_equal.
  induction H as [|x l l' _ IH|x y l|l l' l'' _ IH _ IH']; simpl.
  - done.
  - destruct (p x); simpl; by rewrite IH.
  - by destruct (p x), (p y).
  - by rewrite IH.
Qed.

Lemma count_cons (p : License -> bool) (l : License) (ls : list License) :
  count p (l :: ls) = (if p l then 1 else 0) + count p ls.
Proof. unfold count. simpl. destruct (p l); simpl; lia. Qed.

Lemma count_insert_fresh (p : License -> bool) (h : string) (x : License)
    (m : gmap string License) :
  m !! h = None ->
  count p (Object_values (<[h := x]> m))
  = (if p x then 1 else 0) + count p (Object_values m).
Proof.
  intros Hm. unfold Object_values.
  rewrite (count_Permutation p _ (x :: (map_to_list m).*2)).
  - apply count_cons.
  - by rewrite map_to_list_insert.
Qed.

Lemma count_insert_over (p : License -> bool) (h : string) (l x : License)
    (m : gmap string License) :
  m !! h = Some l ->
  count p (Object_values (<[h := x]> m)) + (if p l then 1 else 0)
  = count p (Object_values m) + (if p x then 1 else 0).
Proof.
  intros Hm.
  rewrite <- (insert_delete_id m h l Hm) at 2.
  rewrite <- (insert_delete_eq m h x).
  rewrite !count_insert_fresh by apply lookup_delete_eq. lia.
Qed.

(** The counters of GET /api/stats, as counts over the records. *)
Lemma stats_counts (now : Z) (s : Server) :
  api_stats now s
  = (s, json (StatsBody
                (mkStats (Z.of_nat (size (licenses s)))
                   (count isActive (Object_values (licenses s)))
                   (count (negb ∘ isActive) (Object_values (licenses s)))
                   (count (is_expired now) (Object_values (licenses s)))
                   (count (expires_within_30_days now)
                      (Object_values (licenses s)))
                   "0h"
                   (Some (Z.of_nat (size (licenses s))
                          - count isActive (Object_values (licenses s))))))).
Proof.
  unfold api_stats.
  edestruct (stats_fold now (Object_values (licenses s)))
    as (Ht & Ha & Hi & He & Hx & Hr & _).
  rewrite Ht, Ha, Hi, He, Hx, Hr. simpl.
  unfold Object_keys. rewrite length_fmap, length_map_to_list.
  do 4 f_equal.
Qed.

(** X18: Stats follows a deactivation.  Deactivating an active license
    moves exactly one record from [active] to [inactive], so
    [available] grows by one, and leaves [total], [expired] and
    [expiringIn30Days] as they were. *)
Theorem stats_follow_deactivation (now : Z) (h : string) (s : Server)
    (l : License) :
  licenses s !! h = Some l ->
  isActive l = true ->
  exists st st',
    (api_stats now s).2 = json (StatsBody st)
    /\ (api_stats now (api_licenses_deactivate h s).1).2
       = json (StatsBody st')
    /\ total st' = total st
    /\ active st' = active st - 1
    /\ inactive st' = inactive st + 1
    /\ expired st' = expired st
    /\ expiringIn30Days st' = expiringIn30Days st
    /\ available st' = Some (total st - active st + 1).
Proof.
  intros Hl Hact. rewrite !stats_counts.
  do 2 eexists. split; [reflexivity|]. split; [reflexivity|].
  unfold api_licenses_deactivate. rewrite Hl. cbn.
  pose proof (count_insert_over isActive h l (set_isActive false l) _ Hl)
    as Ha.
  pose proof (count_insert_over (negb ∘ isActive) h l
                (set_isActive false l) _ Hl) as Hi.
  pose proof (count_insert_over (is_expired now) h l
                (set_isActive false l) _ Hl) as He.
  pose proof (count_insert_over (expires_within_30_days now) h l
                (set_isActive false l) _ Hl) as Hx.
  unfold is_expired, expires_within_30_days in *. simpl in *.
  rewrite Hact in *. simpl in *.
  assert (size (<[h := set_isActive false l]> (licenses s))
          = size (licenses s)) as Hsz.
  { rewrite <- (insert_delete_id (licenses s) h l Hl) at 2.
    rewrite <- (insert_delete_eq (licenses s) h (set_isActive false l)).
    by rewrite !map_size_insert_None by apply lookup_delete_eq. }
  rewrite Hsz.
  destruct (expirationDate l <? now),
    ((now <=? expirationDate l)
     && (expirationDate l <=? now + 30 * MS_PER_DAY));
    repeat split; first [lia | f_equal; lia].
Qed.

(** X19: Stats follows an issue.  Issuing a license whose digest is
    not in use yet adds one to [total] and to [active] and leaves
    [inactive] and [available] as they were, whenever the two Stats
    requests and the Issue read their clocks; and against what a Stats
    request at the same instant would have counted without the new
    license, [expired] is one higher exactly when the new expiration
    date is before that instant, [expiringIn30Days] exactly when it is
    not before it and at most 30 days after it. *)
Theorem stats_follow_issue (before now after : Z)
    (randomSuffix customerId : string) (type : option string)
    (validityDays : option Z) (s : Server) :
  customerId <> "" ->
  let expiry := now + default 365 validityDays * MS_PER_DAY in
  - MAX_TIME <= expiry <= MAX_TIME ->
  licenses s !! hashLicense (generateLicenseKey randomSuffix customerId)
  = None ->
  let s' :=
    (api_licenses_create hashLicense now randomSuffix (Some customerId)
       type validityDays s).1 in
  exists st st' st0,
    (api_stats before s).2 = json (StatsBody st)
    /\ (api_stats after s').2 = json (StatsBody st')
    /\ (api_stats after s).2 = json (StatsBody st0)
    /\ total st' = total st + 1
    /\ active st' = active st + 1
    /\ inactive st' = inactive st
    /\ available st' = available st
    /\ expired st' = expired st0 + (if expiry <? after then 1 else 0)
    /\ expiringIn30Days st'
       = expiringIn30Days st0
         + (if (after <=? expiry) && (expiry <=? after + 30 * MS_PER_DAY)
            then 1 else 0).
Proof.
  intros Hc expiry Hr Hfresh s'. subst s'. rewrite !stats_counts.
  do 3 eexists.
  split; [reflexivity|]. split; [reflexivity|]. split; [reflexivity|].
  rewrite create_in_range by done. cbn.
  rewrite !count_insert_fresh by done.
  rewrite map_size_insert_None by done.
  unfold is_expired, expires_within_30_days. simpl. fold expiry.
  repeat split; first [lia | f_equal; lia].
Qed.

End StatisticsOverTime.

Section LicenseKeys.

Lemma string_length_app (a b : string) :
  String.length (a +:+ b) = (String.length a + String.length b)%nat.
Proof. induction a as [|c a IH]; simpl; [done | by rewrite IH]. Qed.

Lemma string_app_inj_tail (a b x y : string) :
  String.length x = String.length y ->
  a +:+ x = b +:+ y -> a = b /\ x = y.
Proof.
  revert b. induction a as [|c a IH]; intros [|c' b] Hlen.
  - done.
  - change ("" +:+ x) with x.
    change (String c' b +:+ y) with (String c' (b +:+ y)).
    intros ->. simpl in Hlen. rewrite string_length_app in Hlen. lia.
  - change ("" +:+ y) with y.
    change (String c a +:+ x) with (String c (a +:+ x)).
    intros <-. simpl in Hlen. rewrite string_length_app in Hlen. lia.
  - change (String c a +:+ x) with (String c (a +:+ x)).
    change (String c' b +:+ y) with (String c' (b +:+ y)).
    intros [= -> H]. destruct (IH b Hlen H) as [-> ->]. done.
Qed.

Lemma string_app_inv_head (a x y : string) : a +:+ x = a +:+ y -> x = y.
Proof.
  induction a as [|c a IH]; [done|].
  change (String c a +:+ ?z) with (String c (a +:+ z)).
  intros [= H]. by apply IH.
Qed.

(** X21: a license key can be read in one way only.  Two keys built
    with random suffixes of the same length (the code always draws 16
    hex digits) are equal only if both the customer and the suffix are
    equal. *)
Theorem license_keys_are_unambiguous (r1 r2 c1 c2 : string) :
  String.length r1 = String.length r2 ->
  generateLicenseKey r1 c1 = generateLicenseKey r2 c2 ->
  c1 = c2 /\ r1 = r2.
Proof.
  intros Hlen. unfold generateLicenseKey.
  intros H%string_app_inv_head.
  apply string_app_inj_tail in H as [-> H].
  - by apply string_app_inv_head in H as ->.
  - rewrite !string_length_app. by rewrite Hlen.
Qed.

End LicenseKeys.

(** ** Runs of the properties on the example server *)

Lemma example_server_ahmed_lookup :
  licenses example_server_ahmed !! example_hash = Some example_license_ahmed.
Proof. vm_compute. reflexivity. Qed.

(** A run of X6: a login without a username is refused at once. *)
Lemma validate_user_first_failing_check_wins_witness :
  api_verify_user_license example_digest 2000 None (Some example_key)
    example_server_ahmed
  = (example_server_ahmed,
     status_json 400 (Invalid "Username and license key are required")).
Proof.
  apply (proj1 (validate_user_first_failing_check_wins example_digest 2000
                  None (Some example_key) example_server_ahmed)).
  by left.
Defined.

(** A run of X7: [ahmed] is added as a doctor and logs in. *)
Lemma added_user_can_log_in_witness :
  let s1 :=
    (api_licenses_users_add 1500 (example_digest example_key) (Some "ahmed")
       (Some "doctor") example_server).1 in
  (api_verify_user_license example_digest 2000 (Some "ahmed")
     (Some example_key) s1).2
  = json (ValidUser (customerId example_license)
            (expirationDate example_license) (type example_license)
            (Some "ahmed") (default "user" (Some "doctor"))).
Proof.
  apply (added_user_can_log_in example_digest 1500 2000 "ahmed" example_key
           (Some "doctor") example_server example_license).
  - discriminate.
  - discriminate.
  - apply example_server_lookup.
  - vm_compute. congruence.
  - reflexivity.
  - reflexivity.
Defined.

(** A run of X8: [ahmed], deactivated, is refused. *)
Lemma deactivated_user_is_refused_witness :
  let s1 :=
    (api_licenses_users_put (example_digest example_key) "ahmed" false
       example_server_ahmed).1 in
  api_verify_user_license example_digest 2000 (Some "ahmed")
    (Some example_key) s1
  = (s1, json (Invalid "User is deactivated")).
Proof.
  apply (proj1 (deactivated_user_is_refused example_digest 2000 "ahmed"
                  example_key example_server_ahmed example_license_ahmed
                  example_user ltac:(discriminate) ltac:(discriminate)
                  example_server_ahmed_lookup
                  ltac:(vm_compute; congruence) eq_refl eq_refl)).
Defined.

(** A run of X9: [ahmed], removed, leaves a license without users. *)
Lemma removed_user_is_gone_witness :
  let s1 :=
    (api_licenses_users_delete (example_digest example_key) "ahmed"
       example_server_ahmed).1 in
  exists l1,
    licenses s1 !! example_digest example_key = Some l1
    /\ users_of l1 = []
    /\ api_verify_user_license example_digest 2000 (Some "ahmed")
         (Some example_key) s1
       = (s1, json (Invalid "No users assigned to this license")).
Proof.
  intros s1.
  destruct (removed_user_is_gone example_digest 2000 "ahmed" example_key
              example_server_ahmed example_license_ahmed example_user
              ltac:(discriminate) ltac:(discriminate)
              example_server_ahmed_lookup
              ltac:(vm_compute; congruence) eq_refl eq_refl
              ltac:(apply NoDup_singleton))
    as (l1 & Hl1 & Hlen & _ & _ & Hv).
  exists l1. split; [exact Hl1|].
  assert (users_of l1 = []) as Hnil.
  { destruct (users_of l1); [done|]. simpl in Hlen. discriminate. }
  split; [exact Hnil|]. fold s1 in Hv. by rewrite Hnil in Hv.
Defined.

(** A run of X10: on the example license as issued, which has no users
    array yet, both routes answer that the users are not found. *)
Lemma user_routes_need_the_user_witness :
  api_licenses_users_put example_hash "ahmed" false example_server
  = (example_server, status_json 404 (Error "Users not found"))
  /\ api_licenses_users_delete example_hash "ahmed" example_server
     = (example_server, status_json 404 (Error "Users not found")).
Proof.
  apply (proj2 (user_routes_need_the_user example_hash "ahmed" false
                  example_server example_license example_server_lookup)).
  reflexivity.
Defined.

(** A run of X11: the example license validates a second after its
    issue. *)
Lemma issued_license_validates_witness :
  let s1 :=
    (api_licenses_create example_digest 1000 "00AA11BB22CC33DD" (Some "c1")
       None (Some 30) (loadLicenses ∅)).1 in
  (api_licenses_validate example_digest 2000
     (Some (generateLicenseKey "00AA11BB22CC33DD" "c1")) s1).2
  = json (ValidKey "c1" (1000 + default 365 (Some 30) * MS_PER_DAY)
            (default "production" None)).
Proof.
  apply (proj1 (proj2
    (issued_license_validates example_digest 1000 2000 "00AA11BB22CC33DD"
       "c1" None (Some 30) (loadLicenses ∅) ltac:(discriminate)
       ltac:(vm_compute; split; congruence) ltac:(vm_compute; congruence)))).
Defined.

(** A run of X12: the example license, deactivated, is refused. *)
Lemma deactivated_license_is_refused_witness :
  let s1 :=
    (api_licenses_deactivate (example_digest example_key) example_server).1 in
  api_licenses_validate example_digest 2000 (Some example_key) s1
  = (s1, json (Invalid "License is inactive")).
Proof.
  apply (proj1 (deactivated_license_is_refused example_digest 2000
                  example_key example_server example_license
                  ltac:(discriminate) example_server_lookup
                  ltac:(vm_compute; congruence))).
Defined.

(** A run of X13: the example license, deleted, is not found. *)
Lemma deleted_license_is_gone_witness :
  licenses
    (api_licenses_delete (example_digest example_key) example_server).1
    !! example_digest example_key = None.
Proof.
  apply (proj1 (deleted_license_is_gone example_digest 2000 example_key
                  example_server example_license ltac:(discriminate)
                  example_server_lookup)).
Defined.

(** A run of X14: 10 days and then 20 days are 30 days. *)
Lemma extend_twice_adds_up_witness :
  (api_licenses_extend example_hash (Some 20)
     (api_licenses_extend example_hash (Some 10) example_server).1).1
  = (api_licenses_extend example_hash (Some (10 + 20)) example_server).1.
Proof.
  apply (extend_twice_adds_up example_hash 10 20 example_server
           example_license).
  - discriminate.
  - reflexivity.
  - reflexivity.
  - apply example_server_lookup.
  - vm_compute. congruence.
  - vm_compute. congruence.
Defined.

(** A run of X15: 31 days after its issue the example license is
    expired; 30 more days bring it back. *)
Lemma extend_revives_expired_license_witness :
  api_licenses_validate example_digest (1000 + 31 * MS_PER_DAY)
    (Some example_key) example_server
  = (example_server, json (Invalid "License expired"))
  /\ (api_licenses_validate example_digest (1000 + 31 * MS_PER_DAY)
        (Some example_key)
        (api_licenses_extend (example_digest example_key) (Some 30)
           example_server).1).2
     = json (ValidKey (customerId example_license)
               (expirationDate example_license + 30 * MS_PER_DAY)
               (type example_license)).
Proof.
  apply (extend_revives_expired_license example_digest
           (1000 + 31 * MS_PER_DAY) example_key 30 example_server
           example_license).
  - discriminate.
  - discriminate.
  - apply example_server_lookup.
  - reflexivity.
  - reflexivity.
  - reflexivity.
  - vm_compute. split; congruence.
  - vm_compute. congruence.
Defined.

(** A run of X16: a millisecond after the issue, 30 days remain. *)
Lemma remaining_days_round_up_witness :
  0 <= 30
  /\ (30 - 1) * MS_PER_DAY < 2592001000 - 1001 <= 30 * MS_PER_DAY
  /\ Some "A" = Some "A".
Proof.
  apply (remaining_days_round_up example_digest 1001 (Some example_key)
           (Some "A") example_server
           (api_verify_license example_digest 1001 (Some example_key)
              (Some "A") example_server).1
           200 "VetCare License" 2592001000 (Some "A") 30).
  vm_compute. reflexivity.
Defined.

(** A run of X17: an extension beyond the date range changes nothing. *)
Lemma refused_requests_change_nothing_witness :
  (handle example_digest 2000
     (PUT_licenses_extend example_hash (Some 100000000000))
     example_server).1 = example_server.
Proof.
  apply (refused_requests_change_nothing example_digest 2000
           (PUT_licenses_extend example_hash (Some 100000000000))
           example_server _
           (handle example_digest 2000
              (PUT_licenses_extend example_hash (Some 100000000000))
              example_server).2).
  - apply surjective_pairing.
  - left. vm_compute. congruence.
Defined.

(** A run of X18: deactivating the example license. *)
Lemma stats_follow_deactivation_witness :
  exists st st',
    (api_stats 2000 example_server).2 = json (StatsBody st)
    /\ (api_stats 2000
          (api_licenses_deactivate example_hash example_server).1).2
       = json (StatsBody st')
    /\ total st' = total st
    /\ active st' = active st - 1
    /\ inactive st' = inactive st + 1
    /\ expired st' = expired st
    /\ expiringIn30Days st' = expiringIn30Days st
    /\ available st' = Some (total st - active st + 1).
Proof.
  apply (stats_follow_deactivation 2000 example_hash example_server
           example_license example_server_lookup eq_refl).
Defined.

(** A run of X19: the example license is issued at 1000 for 30 days;
    Stats is read at 500 before it and 31 days after it, when the new
    license is counted as expired. *)
Lemma stats_follow_issue_witness :
  let s' :=
    (api_licenses_create example_digest 1000 "00AA11BB22CC33DD" (Some "c1")
       None (Some 30) (loadLicenses ∅)).1 in
  exists st st' st0,
    (api_stats 500 (loadLicenses ∅)).2 = json (StatsBody st)
    /\ (api_stats (1000 + 31 * MS_PER_DAY) s').2 = json (StatsBody st')
    /\ (api_stats (1000 + 31 * MS_PER_DAY) (loadLicenses ∅)).2
       = json (StatsBody st0)
    /\ total st' = total st + 1
    /\ active st' = active st + 1
    /\ inactive st' = inactive st
    /\ available st' = available st
    /\ expired st'
       = expired st0
         + (if 1000 + default 365 (Some 30) * MS_PER_DAY
               <? 1000 + 31 * MS_PER_DAY then 1 else 0)
    /\ expiringIn30Days st'
       = expiringIn30Days st0
         + (if (1000 + 31 * MS_PER_DAY
                <=? 1000 + default 365 (Some 30) * MS_PER_DAY)
               && (1000 + default 365 (Some 30) * MS_PER_DAY
                   <=? 1000 + 31 * MS_PER_DAY + 30 * MS_PER_DAY)
            then 1 else 0).
Proof.
  apply (stats_follow_issue example_digest 500 1000 (1000 + 31 * MS_PER_DAY)
           "00AA11BB22CC33DD" "c1" None (Some 30) (loadLicenses ∅)).
  - discriminate.
  - vm_compute. split; congruence.
  - reflexivity.
Defined.

(** A run of X21: the example key names customer [c1] and its suffix. *)
Lemma license_keys_are_unambiguous_witness :
  "c1" = "c1" /\ "00AA11BB22CC33DD" = "00AA11BB22CC33DD".
Proof.
  apply (license_keys_are_unambiguous "00AA11BB22CC33DD" "00AA11BB22CC33DD"
           "c1" "c1"); reflexivity.
Defined.
